(** * vfire-push: owner signup form

    A shallow embedding of two React components,

      - [src/components/auth/OwnerSignupCard.tsx] (the [SignupCard] form, its
        [onSubmit] handler, the e-mail validation rule and the establishment
        field array), and
      - [src/components/auth/InputField.tsx] (the reveal toggle),

    together with the properties their specification states about them.

    The external collaborators (the Supabase client, the toast notifier, the
    router and the console) are not part of the repository.  The remote
    service is a section variable: an arbitrary state type with two transition
    functions.  Calls to the notifier, the router and the console are recorded
    in a chronological list of effects. *)

From Stdlib Require Import String Ascii List Bool Arith Lia.
Import ListNotations.
Local Open Scope string_scope.
Local Open Scope list_scope.

Set Implicit Arguments.

(** ** Data model (OwnerSignupCard.tsx, lines 10-23) *)

Record EstablishmentData : Type := mkEstablishmentData {
  name : string;
  dtiCertNo : string
}.

(** [middleName?: string] is an optional member: [None] is [undefined]. *)
Record SignupFormData : Type := mkSignupFormData {
  firstName : string;
  middleName : option string;
  lastName : string;
  email : string;
  password : string;
  confirmPassword : string;
  establishments : list EstablishmentData
}.

(** ** JavaScript values the handler manipulates *)

(** [a || b] on an optional string: [undefined], [null] and the empty string
    are falsy, every other string is truthy. *)
Definition truthy (o : option string) : bool :=
  match o with
  | Some s => negb (s =? "")
  | None => false
  end.

(** [a || null]: a falsy operand becomes [null] ([None]). *)
Definition js_or_null (o : option string) : option string :=
  if truthy o then o else None.

(** [a || "literal"]: the result is a string. *)
Definition js_or_str (o : option string) (d : string) : string :=
  match o with
  | Some s => if s =? "" then d else s
  | None => d
  end.

(** What a [throw] (or a rejected promise) can carry.  The handler only ever
    reads the [message] property of a caught value, so a value is either
    nullish (reading a property of it raises a TypeError) or something whose
    [message] is a string or is absent. *)
Inductive Thrown : Type :=
| ThrownNullish
| ThrownValue (message : option string).

(** The TypeError raised by [error.message] when [error] is nullish. *)
Definition TypeError : Thrown :=
  ThrownValue (Some "Cannot read properties of undefined (reading 'message')").

(** ** The remote service (the Supabase client) *)

(** [AuthError] and [PostgrestError]: both carry [message: string]. *)
Record RemoteError : Type := mkRemoteError { err_message : string }.

Record User : Type := mkUser { user_id : string }.

(** The argument of [supabase.auth.signUp] (lines 49-60). *)
Record ProfileData : Type := mkProfileData {
  first_name : string;
  middle_name : option string;   (* [None] is [null] *)
  last_name : string;
  role : string
}.

Record SignUpRequest : Type := mkSignUpRequest {
  req_email : string;
  req_password : string;
  req_options_data : ProfileData
}.

(** The resolved value of [signUp]: [{ data: { user }, error }]. *)
Record AuthResponse : Type := mkAuthResponse {
  auth_user : option User;
  auth_error : option RemoteError
}.

(** The object passed to [.insert] (lines 69-74). *)
Record EstablishmentRow : Type := mkEstablishmentRow {
  owner_id : string;
  row_name : string;
  dti_cert_no : string;
  status : string
}.

(** The resolved value of [.insert]: [{ error }]. *)
Record InsertResponse : Type := mkInsertResponse {
  est_error : option RemoteError
}.

(** An awaited promise either resolves or rejects. *)
Inductive Settled (A : Type) : Type :=
| Resolved (a : A)
| Rejected (t : Thrown).
Arguments Rejected {A} t.

(** ** Notifier, router, console *)

Inductive Variant : Type := VariantDefault | VariantDestructive.

Record ToastArgs : Type := mkToast {
  title : string;
  description : string;
  variant : option Variant;       (* [None]: the property is not given *)
  duration : nat
}.

Inductive Severity : Type := SeveritySuccess | SeverityFailure.

(** A toast without a [variant] uses the default look; "destructive" is the
    error look. *)
Definition severity (t : ToastArgs) : Severity :=
  match variant t with
  | Some VariantDestructive => SeverityFailure
  | _ => SeveritySuccess
  end.

(** Calls the handler makes on its collaborators, in the order made. *)
Inductive Effect : Type :=
| CallSignUp (req : SignUpRequest)
| CallInsert (table : string) (row : EstablishmentRow)
| CallToast (t : ToastArgs)
| CallNavigate (path : string)
| CallConsoleError (label : string) (e : Thrown).

(** ** Completions and the handler's monad

    A computation takes the world (the component state, the remote service
    and the effects so far) to a completion and a new world.  A completion is
    normal or abrupt (a value was thrown), as in the language. *)

Inductive Completion (A : Type) : Type :=
| Normal (a : A)
| Abrupt (t : Thrown).
Arguments Abrupt {A} t.

Section Monad.
Variable W : Type.

Definition M (A : Type) : Type := W -> Completion A * W.

Definition ret {A} (a : A) : M A := fun w => (Normal a, w).

Definition throw {A} (t : Thrown) : M A := fun w => (Abrupt t, w).

Definition bind {A B} (m : M A) (k : A -> M B) : M B :=
  fun w =>
    match m w with
    | (Normal a, w') => k a w'
    | (Abrupt t, w') => (Abrupt t, w')
    end.

(** [try { body } catch (e) { handler e }] *)
Definition try_catch {A} (body : M A) (handler : Thrown -> M A) : M A :=
  fun w =>
    match body w with
    | (Normal a, w') => (Normal a, w')
    | (Abrupt t, w') => handler t w'
    end.

(** [try { body } finally { fin }]: [fin] always runs; the completion of
    [body] is kept unless [fin] itself completes abruptly. *)
Definition try_finally {A} (body : M A) (fin : M unit) : M A :=
  fun w =>
    match body w with
    | (c, w') =>
        match fin w' with
        | (Normal _, w'') => (c, w'')
        | (Abrupt t, w'') => (Abrupt t, w'')
        end
    end.

(** [for (const x of xs) { body x }] *)
Fixpoint for_of {A} (xs : list A) (body : A -> M unit) : M unit :=
  match xs with
  | [] => ret tt
  | x :: rest => bind (body x) (fun _ => for_of rest body)
  end.

(** [await p]: a rejection is thrown at the await. *)
Definition await {A} (p : W -> Settled A * W) : M A :=
  fun w =>
    match p w with
    | (Resolved a, w') => (Normal a, w')
    | (Rejected t, w') => (Abrupt t, w')
    end.

(** [e.message]: a TypeError when [e] is nullish. *)
Definition get_message (e : Thrown) : M (option string) :=
  match e with
  | ThrownNullish => throw TypeError
  | ThrownValue m => ret m
  end.
End Monad.

Declare Scope js_scope.
Delimit Scope js_scope with js.
Notation "x <- m ;; k" := (bind m (fun x => k))
  (at level 61, m at next level, right associativity) : js_scope.
Notation "m ;; k" := (bind m (fun _ => k))
  (at level 61, right associativity) : js_scope.

(** ** The submission handler (OwnerSignupCard.tsx, lines 40-99) *)

Inductive Phase : Type := Idle | Submitting | Success | Failed.

Section Workflow.
(** The remote service: its state, and what each of the two operations the
    handler awaits settles to in a given state. *)
Variable Remote : Type.
Variable signUp : SignUpRequest -> Remote -> Settled AuthResponse * Remote.
Variable insert :
  string -> EstablishmentRow -> Remote -> Settled InsertResponse * Remote.

(** [isLoading] and [errorMessage] are the two [useState] cells (lines
    40-41); [effects] is the chronological log of collaborator calls. *)
Record World : Type := mkWorld {
  isLoading : bool;
  errorMessage : string;
  remote : Remote;
  effects : list Effect
}.

Definition setIsLoading (b : bool) : M World unit :=
  fun w => (Normal tt, mkWorld b (errorMessage w) (remote w) (effects w)).

Definition setErrorMessage (s : string) : M World unit :=
  fun w => (Normal tt, mkWorld (isLoading w) s (remote w) (effects w)).

Definition log (e : Effect) (w : World) : World :=
  mkWorld (isLoading w) (errorMessage w) (remote w) (effects w ++ [e]).

Definition with_remote (r : Remote) (w : World) : World :=
  mkWorld (isLoading w) (errorMessage w) r (effects w).

Definition toast (t : ToastArgs) : M World unit :=
  fun w => (Normal tt, log (CallToast t) w).

Definition navigate (path : string) : M World unit :=
  fun w => (Normal tt, log (CallNavigate path) w).

Definition console_error (label : string) (e : Thrown) : M World unit :=
  fun w => (Normal tt, log (CallConsoleError label e) w).

(** [supabase.auth.signUp(req)]: the request is issued, then the service
    settles it. *)
Definition supabase_auth_signUp (req : SignUpRequest)
  : World -> Settled AuthResponse * World :=
  fun w =>
    let w1 := log (CallSignUp req) w in
    let (res, r') := signUp req (remote w1) in
    (res, with_remote r' w1).

(** [supabase.from(table).insert(row)] *)
Definition supabase_from_insert (table : string) (row : EstablishmentRow)
  : World -> Settled InsertResponse * World :=
  fun w =>
    let w1 := log (CallInsert table row) w in
    let (res, r') := insert table row (remote w1) in
    (res, with_remote r' w1).

(** [throw authError], [throw estError]: the thrown value is the error
    object, whose [message] is a string. *)
Definition thrown_of (e : RemoteError) : Thrown :=
  ThrownValue (Some (err_message e)).

Definition signUpRequest (data : SignupFormData) : SignUpRequest :=
  {| req_email := email data;
     req_password := password data;
     req_options_data :=
       {| first_name := firstName data;
          middle_name := js_or_null (middleName data);
          last_name := lastName data;
          role := "establishment_owner" |} |}.

Definition establishmentRow (user : User) (establishment : EstablishmentData)
  : EstablishmentRow :=
  {| owner_id := user_id user;
     row_name := name establishment;
     dti_cert_no := dtiCertNo establishment;
     status := "unregistered" |}.

Definition successToast : ToastArgs :=
  {| title := "Registration successful";
     description := "You can now login to your account.";
     variant := None;
     duration := 3000 |}.

Definition failureToast (message : option string) : ToastArgs :=
  {| title := "Registration failed";
     description := js_or_str message "An error occurred during registration.";
     variant := Some VariantDestructive;
     duration := 5000 |}.

Local Open Scope js_scope.

(** The body of one loop iteration (lines 67-76). *)
Definition insertEstablishment (user : User) (establishment : EstablishmentData)
  : M World unit :=
  res <- await (supabase_from_insert "establishments"
                  (establishmentRow user establishment)) ;;
  match est_error res with
  | Some estError => throw (thrown_of estError)
  | None => ret tt
  end.

(** The [try] block (lines 48-86). *)
Definition onSubmit_try (data : SignupFormData) : M World unit :=
  res <- await (supabase_auth_signUp (signUpRequest data)) ;;
  match auth_error res with
  | Some authError => throw (thrown_of authError)
  | None =>
      match auth_user res with
      | Some user =>
          for_of (establishments data) (insertEstablishment user) ;;
          toast successToast ;;
          navigate "/owner/login"
      | None => ret tt
      end
  end.

(** The [catch] block (lines 87-95). *)
Definition onSubmit_catch (error : Thrown) : M World unit :=
  console_error "Signup error:" error ;;
  m <- get_message error ;;
  setErrorMessage (js_or_str m "Failed to register. Please try again.") ;;
  m' <- get_message error ;;
  toast (failureToast m').

Definition onSubmit (data : SignupFormData) : M World unit :=
  setIsLoading true ;;
  setErrorMessage "" ;;
  try_finally
    (try_catch (onSubmit_try data) onSubmit_catch)
    (setIsLoading false).

(** The form as it stands when the user presses the enabled submit button:
    not loading, possibly showing the message of an earlier attempt, and a
    fresh effect log. *)
Definition start (previousError : string) (r : Remote) : World :=
  mkWorld false previousError r [].

Definition submit (data : SignupFormData) (previousError : string) (r : Remote)
  : Completion unit * World :=
  onSubmit data (start previousError r).

(** *** What the service answers

    The value a settled call makes the handler throw, if any: the error of
    a resolved reply (lines 62 and 76), or the reason of a rejection. *)

Definition signUpFailure (reply : Settled AuthResponse) : option Thrown :=
  match reply with
  | Resolved res => option_map thrown_of (auth_error res)
  | Rejected t => Some t
  end.

Definition insertFailure (reply : Settled InsertResponse) : option Thrown :=
  match reply with
  | Resolved res => option_map thrown_of (est_error res)
  | Rejected t => Some t
  end.

(** The service's state after it has accepted an insertion for each of
    [ests] in turn, or [None] if it fails one of them. *)
Fixpoint insertAll (user : User) (ests : list EstablishmentData) (r : Remote)
  : option Remote :=
  match ests with
  | [] => Some r
  | e :: rest =>
      let (reply, r') := insert "establishments" (establishmentRow user e) r in
      match insertFailure reply with
      | None => insertAll user rest r'
      | Some _ => None
      end
  end.

(** How many of [ests], from the front, get an insertion request when the
    requests stop at the first failure: every entry up to and including the
    first one the service fails. *)
Fixpoint attempted (user : User) (ests : list EstablishmentData) (r : Remote)
  : nat :=
  match ests with
  | [] => 0
  | e :: rest =>
      let (reply, r') := insert "establishments" (establishmentRow user e) r in
      match insertFailure reply with
      | None => S (attempted user rest r')
      | Some _ => 1
      end
  end.

(** Whether the service creates the account and accepts every insertion. *)
Definition allSucceed (data : SignupFormData) (r : Remote) : bool :=
  match signUp (signUpRequest data) r with
  | (Resolved {| auth_user := Some user; auth_error := None |}, r') =>
      match insertAll user (establishments data) r' with
      | Some _ => true
      | None => false
      end
  | _ => false
  end.

(** *** Observations on the world after a run *)

Definition insertsOf (es : list Effect) : list EstablishmentRow :=
  flat_map (fun e => match e with CallInsert _ row => [row] | _ => [] end) es.

Definition insertTablesOf (es : list Effect) : list string :=
  flat_map (fun e => match e with CallInsert t _ => [t] | _ => [] end) es.

Definition signUpsOf (es : list Effect) : list SignUpRequest :=
  flat_map (fun e => match e with CallSignUp req => [req] | _ => [] end) es.

Definition toastsOf (es : list Effect) : list ToastArgs :=
  flat_map (fun e => match e with CallToast t => [t] | _ => [] end) es.

Definition navigationsOf (es : list Effect) : list string :=
  flat_map (fun e => match e with CallNavigate p => [p] | _ => [] end) es.

(** The states of the submission state machine, read off the world: the
    spinner is shown while [isLoading]; the inline error box is rendered
    when [errorMessage] is truthy (line 111); success is the redirect. *)
Definition phase (w : World) : Phase :=
  if isLoading w then Submitting
  else if negb (errorMessage w =? "") then Failed
  else match navigationsOf (effects w) with
       | [] => Idle
       | _ :: _ => Success
       end.
End Workflow.

(** ** A scripted stand-in for the remote service

    [signUp] settles to a fixed reply; the n-th [insert] settles to the n-th
    scripted reply, and succeeds once the script is exhausted. *)

Module Stub.
Record Script : Type := mkScript {
  signUpReply : Settled AuthResponse;
  insertReplies : list (Settled InsertResponse)
}.

Definition inserted : Settled InsertResponse :=
  Resolved {| est_error := None |}.

Definition refused (message : string) : Settled InsertResponse :=
  Resolved {| est_error := Some (mkRemoteError message) |}.

Definition created (uid : string) : Settled AuthResponse :=
  Resolved {| auth_user := Some (mkUser uid); auth_error := None |}.

Definition rejectedSignUp (message : string) : Settled AuthResponse :=
  Resolved {| auth_user := None; auth_error := Some (mkRemoteError message) |}.

Definition noIdentity : Settled AuthResponse :=
  Resolved {| auth_user := None; auth_error := None |}.

Definition signUp (_ : SignUpRequest) (s : Script)
  : Settled AuthResponse * Script :=
  (signUpReply s, s).

Definition insert (_ : string) (_ : EstablishmentRow) (s : Script)
  : Settled InsertResponse * Script :=
  match insertReplies s with
  | [] => (inserted, s)
  | reply :: rest => (reply, mkScript (signUpReply s) rest)
  end.

Definition submit (data : SignupFormData) (s : Script)
  : Completion unit * World Script :=
  submit signUp insert data "" s.

Definition form (middle : option string) (ests : list EstablishmentData)
  : SignupFormData :=
  {| firstName := "Ana"; middleName := middle; lastName := "Cruz";
     email := "ana@example.com"; password := "s3cretpass";
     confirmPassword := "s3cretpass"; establishments := ests |}.

Definition bakery : EstablishmentData :=
  {| name := "Bakery"; dtiCertNo := "DTI-1" |}.

Definition cafe : EstablishmentData :=
  {| name := "Cafe"; dtiCertNo := "DTI-2" |}.

(** The account is created and the first insertion is refused. *)
Definition firstInsertRefused : Script :=
  mkScript (created "u-1") [refused "duplicate key value"].

(** The account is created and the second insertion is refused. *)
Definition secondInsertRefused : Script :=
  mkScript (created "u-1") [inserted; refused "duplicate key value"].

(** The account is created and every insertion is accepted. *)
Definition allAccepted : Script := mkScript (created "u-1") [].

(** The sign-up is refused. *)
Definition signUpRefused : Script :=
  mkScript (rejectedSignUp "User already registered") [].

(** The sign-up resolves with neither an error nor a user. *)
Definition signUpWithoutUser : Script := mkScript noIdentity [].

(** The sign-up promise is rejected with [undefined]. *)
Definition signUpRejectedNullish : Script :=
  mkScript (Rejected ThrownNullish) [].
End Stub.

(** ** Field validation (OwnerSignupCard.tsx, lines 154-160)

    The [email] field is registered with two rules, [required] and
    [pattern].  The pattern is the regular expression literal

      /^[A-Z0-9._%+-]+@[A-Z0-9.-]+\.[A-Z]{2,}$/i

    which is embedded as a syntax tree and run by a derivative matcher. *)

(** An atom of a character class: a single character or a range. *)
Inductive ClassAtom : Type :=
| Chr (c : ascii)
| Range (lo hi : ascii).

Definition in_atom (c : ascii) (a : ClassAtom) : bool :=
  match a with
  | Chr d => Ascii.eqb c d
  | Range lo hi =>
      Nat.leb (nat_of_ascii lo) (nat_of_ascii c)
      && Nat.leb (nat_of_ascii c) (nat_of_ascii hi)
  end.

Definition is_upper (c : ascii) : bool := in_atom c (Range "A"%char "Z"%char).
Definition is_lower (c : ascii) : bool := in_atom c (Range "a"%char "z"%char).

Definition toUpperCase (c : ascii) : ascii :=
  if is_lower c then ascii_of_nat (nat_of_ascii c - 32) else c.

Definition toLowerCase (c : ascii) : ascii :=
  if is_upper c then ascii_of_nat (nat_of_ascii c + 32) else c.

(** Membership in a class [[...]].  Under the [i] flag a character matches
    when it and a member of the class have the same case folding; on the
    characters a class atom can hold here that is: the character itself, its
    upper case or its lower case is a member. *)
Definition in_class (ignoreCase : bool) (atoms : list ClassAtom) (c : ascii)
  : bool :=
  existsb (in_atom c) atoms
  || (ignoreCase
      && (existsb (in_atom (toUpperCase c)) atoms
          || existsb (in_atom (toLowerCase c)) atoms)).

(** Regular expressions: the constructs of the pattern ([Class], [Seq],
    [AtLeast] for [+] and [{n,}]) and the ones derivatives add. *)
Inductive RegExp : Type :=
| Void
| Eps
| Class (p : ascii -> bool)
| Seq (r1 r2 : RegExp)
| Alt (r1 r2 : RegExp)
| AtLeast (n : nat) (r : RegExp).

Fixpoint nullable (r : RegExp) : bool :=
  match r with
  | Void => false
  | Eps => true
  | Class _ => false
  | Seq r1 r2 => nullable r1 && nullable r2
  | Alt r1 r2 => nullable r1 || nullable r2
  | AtLeast 0 _ => true
  | AtLeast (S _) r1 => nullable r1
  end.

Fixpoint deriv (c : ascii) (r : RegExp) : RegExp :=
  match r with
  | Void => Void
  | Eps => Void
  | Class p => if p c then Eps else Void
  | Seq r1 r2 =>
      if nullable r1
      then Alt (Seq (deriv c r1) r2) (deriv c r2)
      else Seq (deriv c r1) r2
  | Alt r1 r2 => Alt (deriv c r1) (deriv c r2)
  | AtLeast n r1 =>
      if nullable r1
      then Seq (deriv c r1) (AtLeast 0 r1)
      else Seq (deriv c r1) (AtLeast (pred n) r1)
  end.

(** [^r$] tested on a string (no [m] flag): the whole string must match. *)
Fixpoint test_chars (r : RegExp) (s : list ascii) : bool :=
  match s with
  | [] => nullable r
  | c :: s' => test_chars (deriv c r) s'
  end.

Definition test (r : RegExp) (value : string) : bool :=
  test_chars r (list_ascii_of_string value).

(** The strings an expression denotes.  [AtLeast n r] is [n] or more
    consecutive matches of [r]. *)
Inductive Matches : RegExp -> list ascii -> Prop :=
| MEps : Matches Eps []
| MClass p c : p c = true -> Matches (Class p) [c]
| MSeq r1 r2 s1 s2 :
    Matches r1 s1 -> Matches r2 s2 -> Matches (Seq r1 r2) (s1 ++ s2)
| MAltL r1 r2 s : Matches r1 s -> Matches (Alt r1 r2) s
| MAltR r1 r2 s : Matches r2 s -> Matches (Alt r1 r2) s
| MAtLeastNil r : Matches (AtLeast 0 r) []
| MAtLeastCons n r s1 s2 :
    Matches r s1 -> Matches (AtLeast (pred n) r) s2 ->
    Matches (AtLeast n r) (s1 ++ s2).

(** The three classes of the pattern, with the [i] flag. *)
Definition localClass : ascii -> bool :=
  in_class true
    [Range "A" "Z"; Range "0" "9";
     Chr "."; Chr "_"; Chr "%"; Chr "+"; Chr "-"]%char.

Definition domainClass : ascii -> bool :=
  in_class true [Range "A" "Z"; Range "0" "9"; Chr "."; Chr "-"]%char.

Definition letterClass : ascii -> bool :=
  in_class true [Range "A" "Z"]%char.

Definition atSign : ascii -> bool := in_class true [Chr "@"%char].
Definition dot : ascii -> bool := in_class true [Chr "."%char].

(** [/^[A-Z0-9._%+-]+@[A-Z0-9.-]+\.[A-Z]{2,}$/i] *)
Definition emailPattern : RegExp :=
  Seq (AtLeast 1 (Class localClass))
    (Seq (Class atSign)
       (Seq (AtLeast 1 (Class domainClass))
          (Seq (Class dot)
             (AtLeast 2 (Class letterClass))))).

(** The error a rule produces: react-hook-form reports the rule's kind
    ([type]) and its message. *)
Inductive RuleType : Type := TypeRequired | TypePattern.

Record FieldError : Type := mkFieldError {
  error_type : RuleType;
  error_message : string
}.

Record RegisterOptions : Type := mkRegisterOptions {
  required : option string;
  pattern : option (RegExp * string)
}.

(** The rules of one field are checked in a fixed order and the first
    violated one is reported: [required] (the value is empty), then
    [pattern] (the value is not empty and fails the expression). *)
Definition requiredError (rules : RegisterOptions) (value : string)
  : option FieldError :=
  match required rules with
  | Some message =>
      if value =? "" then Some (mkFieldError TypeRequired message) else None
  | None => None
  end.

Definition patternError (rules : RegisterOptions) (value : string)
  : option FieldError :=
  match pattern rules with
  | Some (re, message) =>
      if negb (value =? "") && negb (test re value)
      then Some (mkFieldError TypePattern message)
      else None
  | None => None
  end.

Definition validateField (rules : RegisterOptions) (value : string)
  : option FieldError :=
  match requiredError rules value with
  | Some e => Some e
  | None => patternError rules value
  end.

Definition emailRules : RegisterOptions :=
  {| required := Some "Email is required";
     pattern := Some (emailPattern, "Invalid email address") |}.

Definition validateEmail (value : string) : option FieldError :=
  validateField emailRules value.

(** The specification's names for the two kinds of violation. *)
Inductive ValidationError : Type :=
| RequiredFieldMissing
| InvalidFormat.

Definition classify (e : FieldError) : ValidationError :=
  match error_type e with
  | TypeRequired => RequiredFieldMissing
  | TypePattern => InvalidFormat
  end.

Definition emailViolation (value : string) : option ValidationError :=
  option_map classify (validateEmail value).

(** *** The pattern in the specification's words

    [local-part@domain.tld]: a non-empty local part of letters, digits and
    [._%+-]; an [@]; a non-empty domain of letters, digits, [.] and [-]; a
    dot; a top-level domain of at least two letters.  Letters are taken in
    either case. *)

Definition isLetter (c : ascii) : bool := is_upper c || is_lower c.
Definition isDigit (c : ascii) : bool := in_atom c (Range "0" "9")%char.

Definition isLocalChar (c : ascii) : bool :=
  isLetter c || isDigit c
  || existsb (Ascii.eqb c) ["."; "_"; "%"; "+"; "-"]%char.

Definition isDomainChar (c : ascii) : bool :=
  isLetter c || isDigit c || existsb (Ascii.eqb c) ["."; "-"]%char.

Definition EmailShape (s : list ascii) : Prop :=
  exists localPart domain tld,
    s = localPart ++ "@"%char :: domain ++ "."%char :: tld
    /\ localPart <> [] /\ forallb isLocalChar localPart = true
    /\ domain <> [] /\ forallb isDomainChar domain = true
    /\ 2 <= length tld /\ forallb isLetter tld = true.

(** ** The establishments field array (OwnerSignupCard.tsx, lines 26-35 and
    196-217) *)

Definition blankEstablishment : EstablishmentData :=
  {| name := ""; dtiCertNo := "" |}.

(** [defaultValues.establishments] *)
Definition defaultEstablishments : list EstablishmentData :=
  [blankEstablishment].

(** [append(value)] of [useFieldArray]: the value is added at the end. *)
Definition append (value : EstablishmentData) (fields : list EstablishmentData)
  : list EstablishmentData :=
  fields ++ [value].

(** [remove(index)] of [useFieldArray]: the entry at [index] is dropped; an
    index past the end leaves the list as it is. *)
Fixpoint remove (index : nat) (fields : list EstablishmentData)
  : list EstablishmentData :=
  match fields, index with
  | [], _ => []
  | _ :: rest, 0 => rest
  | first :: rest, S i => first :: remove i rest
  end.

(** Typing into one of the two inputs of the entry at [index]. *)
Fixpoint update (index : nat) (f : EstablishmentData -> EstablishmentData)
  (fields : list EstablishmentData) : list EstablishmentData :=
  match fields, index with
  | [], _ => []
  | first :: rest, 0 => f first :: rest
  | first :: rest, S i => first :: update i f rest
  end.

(** What the user can do to the list: press the plus button (line 198),
    press the minus button of the entry rendered at [index] (line 212), or
    type into the name or certificate input of an entry. *)
Inductive FieldAction : Type :=
| PressPlus
| PressMinus (index : nat)
| TypeName (index : nat) (value : string)
| TypeCertNo (index : nat) (value : string).

(** Whether the control exists in the rendering of [fields]: one block per
    entry ([fields.map], line 205), and the minus button only under
    [index > 0] (line 209). *)
Definition offered (fields : list EstablishmentData) (a : FieldAction) : bool :=
  match a with
  | PressPlus => true
  | PressMinus index => (0 <? index)%nat && (index <? length fields)%nat
  | TypeName index _ => (index <? length fields)%nat
  | TypeCertNo index _ => (index <? length fields)%nat
  end.

Definition perform (a : FieldAction) (fields : list EstablishmentData)
  : list EstablishmentData :=
  match a with
  | PressPlus => append blankEstablishment fields
  | PressMinus index => remove index fields
  | TypeName index value =>
      update index (fun e => mkEstablishmentData value (dtiCertNo e)) fields
  | TypeCertNo index value =>
      update index (fun e => mkEstablishmentData (name e) value) fields
  end.

(** A session: the actions are taken one after the other, each on a control
    the current rendering offers; [None] when one of them is not offered. *)
Fixpoint session (actions : list FieldAction) (fields : list EstablishmentData)
  : option (list EstablishmentData) :=
  match actions with
  | [] => Some fields
  | a :: rest =>
      if offered fields a then session rest (perform a fields) else None
  end.

(** ** InputField (InputField.tsx) *)

(** The props the component reads (the others are forwarded to the [input]
    element as they are). *)
Record InputFieldProps : Type := mkInputFieldProps {
  label : string;
  icon : string;
  showPasswordToggle : bool;
  type : option string           (* [None]: not given, defaults to "text" *)
}.

(** A mounted field: the [showPassword] cell, and the text the [input]
    element currently holds. *)
Record InputFieldState : Type := mkInputFieldState {
  showPassword : bool;
  inputValue : string
}.

(** [togglePassword]: [setShowPassword(!showPassword)]. *)
Definition togglePassword (st : InputFieldState) : InputFieldState :=
  {| showPassword := negb (showPassword st); inputValue := inputValue st |}.

(** [const inputType = showPassword ? "text" : type], with [type = "text"]
    as the default of the destructuring (line 15). *)
Definition inputType (props : InputFieldProps) (st : InputFieldState)
  : string :=
  if showPassword st then "text"
  else match type props with
       | Some t => t
       | None => "text"
       end.

(** [useState(false)], around an input holding [text]. *)
Definition mounted (text : string) : InputFieldState :=
  {| showPassword := false; inputValue := text |}.

(** ** The rules of all the fields (OwnerSignupCard.tsx, lines 116-191, 227
    and 239)

    Every input is registered with its rules; [handleSubmit] checks each
    field and calls [onSubmit] only when no field has an error. *)

Inductive RuleKind : Type :=
| KindRequired
| KindMinLength
| KindPattern
| KindValidate.

Record Violation : Type := mkViolation {
  violation_kind : RuleKind;
  violation_message : string
}.

(** The options given to [register].  A [validate] function returns [true]
    ([None]) or the message to report. *)
Record FieldRules : Type := mkFieldRules {
  rule_required : option string;
  rule_minLength : option (nat * string);
  rule_pattern : option (RegExp * string);
  rule_validate : option (string -> option string)
}.

Definition checkRequired (rules : FieldRules) (value : string)
  : option Violation :=
  match rule_required rules with
  | Some message =>
      if value =? "" then Some (mkViolation KindRequired message) else None
  | None => None
  end.

Definition checkMinLength (rules : FieldRules) (value : string)
  : option Violation :=
  match rule_minLength rules with
  | Some (n, message) =>
      if negb (value =? "") && (String.length value <? n)%nat
      then Some (mkViolation KindMinLength message)
      else None
  | None => None
  end.

Definition checkPattern (rules : FieldRules) (value : string)
  : option Violation :=
  match rule_pattern rules with
  | Some (re, message) =>
      if negb (value =? "") && negb (test re value)
      then Some (mkViolation KindPattern message)
      else None
  | None => None
  end.

Definition checkValidate (rules : FieldRules) (value : string)
  : option Violation :=
  match rule_validate rules with
  | Some f => option_map (mkViolation KindValidate) (f value)
  | None => None
  end.

Fixpoint firstError (checks : list (option Violation)) : option Violation :=
  match checks with
  | [] => None
  | Some v :: _ => Some v
  | None :: rest => firstError rest
  end.

(** One field: the rules are tried in this order and the first violated one
    is the field's error. *)
Definition checkField (rules : FieldRules) (value : string)
  : option Violation :=
  firstError [checkRequired rules value; checkMinLength rules value;
              checkPattern rules value; checkValidate rules value].

Definition requiredRule (message : string) : FieldRules :=
  mkFieldRules (Some message) None None None.

(** Lines 124 and 143. *)
Definition firstNameRules : FieldRules := requiredRule "First name is required".
Definition lastNameRules : FieldRules := requiredRule "Last name is required".

(** Lines 154-160. *)
Definition emailFieldRules : FieldRules :=
  mkFieldRules (Some "Email is required") None
    (Some (emailPattern, "Invalid email address")) None.

(** Lines 170-176. *)
Definition passwordRules : FieldRules :=
  mkFieldRules (Some "Password is required")
    (Some (8, "Password must have at least 8 characters")) None None.

(** Lines 186-189: [value => value === password || "Passwords do not
    match"], where [password] is the watched value of the password field. *)
Definition confirmPasswordRules (password : string) : FieldRules :=
  mkFieldRules (Some "Please confirm your password") None None
    (Some (fun value =>
             if value =? password then None
             else Some "Passwords do not match")).

(** Lines 227 and 239. *)
Definition establishmentNameRules : FieldRules :=
  requiredRule "Establishment name is required".
Definition dtiCertNoRules : FieldRules :=
  requiredRule "DTI certificate number is required".

(** [errors.establishments[index]] *)
Record EstablishmentErrors : Type := mkEstablishmentErrors {
  name_error : option Violation;
  dtiCertNo_error : option Violation
}.

(** [formState.errors].  The middle name is registered without rules (line
    134) and has no entry. *)
Record FormErrors : Type := mkFormErrors {
  firstName_error : option Violation;
  lastName_error : option Violation;
  email_error : option Violation;
  password_error : option Violation;
  confirmPassword_error : option Violation;
  establishments_errors : list EstablishmentErrors
}.

Definition checkEstablishment (e : EstablishmentData) : EstablishmentErrors :=
  {| name_error := checkField establishmentNameRules (name e);
     dtiCertNo_error := checkField dtiCertNoRules (dtiCertNo e) |}.

Definition validateForm (data : SignupFormData) : FormErrors :=
  {| firstName_error := checkField firstNameRules (firstName data);
     lastName_error := checkField lastNameRules (lastName data);
     email_error := checkField emailFieldRules (email data);
     password_error := checkField passwordRules (password data);
     confirmPassword_error :=
       checkField (confirmPasswordRules (password data))
         (confirmPassword data);
     establishments_errors := map checkEstablishment (establishments data) |}.

Definition isNone {A : Type} (o : option A) : bool :=
  match o with
  | Some _ => false
  | None => true
  end.

(** No field has an error. *)
Definition noErrors (e : FormErrors) : bool :=
  isNone (firstName_error e) && isNone (lastName_error e)
  && isNone (email_error e) && isNone (password_error e)
  && isNone (confirmPassword_error e)
  && forallb (fun ee => isNone (name_error ee) && isNone (dtiCertNo_error ee))
       (establishments_errors e).

(** [handleSubmit(onValid)]: the handler runs only on a form without
    errors; otherwise the errors are shown and nothing else happens. *)
Definition handleSubmit {W : Type} (onValid : SignupFormData -> M W unit)
  (data : SignupFormData) : M W unit :=
  if noErrors (validateForm data) then onValid data else ret tt.

(** ** What the card and the field render *)

Section View.
Variable Remote : Type.



End View.

(** Pressing the enabled submit button of the form holding [data]. *)
Definition pressSubmit {Remote : Type}
  (signUp : SignUpRequest -> Remote -> Settled AuthResponse * Remote)
  (insert : string -> EstablishmentRow -> Remote
            -> Settled InsertResponse * Remote)
  (data : SignupFormData) (previousError : string) (r : Remote)
  : Completion unit * World Remote :=
  handleSubmit (onSubmit signUp insert) data (start previousError r).

(** [console.error] calls, by the value logged. *)
Definition consoleErrorsOf (es : list Effect) : list Thrown :=
  flat_map (fun e => match e with CallConsoleError _ t => [t] | _ => [] end)
    es.

(** One block per entry (lines 205-218): its heading "Establishment #n",
    and whether it has a minus button. *)
Record EstablishmentBlock : Type := mkEstablishmentBlock {
  heading_number : nat;
  minusButton : bool
}.

Fixpoint renderBlocksFrom (index : nat) (fields : list EstablishmentData)
  : list EstablishmentBlock :=
  match fields with
  | [] => []
  | _ :: rest =>
      {| heading_number := index + 1; minusButton := (0 <? index)%nat |}
      :: renderBlocksFrom (S index) rest
  end.

(** [fields.map((field, index) => ...)] *)
Definition renderBlocks (fields : list EstablishmentData)
  : list EstablishmentBlock :=
  renderBlocksFrom 0 fields.

(** How often each button was pressed in a list of actions. *)
Definition plusCount (actions : list FieldAction) : nat :=
  length (filter (fun a => match a with PressPlus => true | _ => false end)
            actions).

Definition minusCount (actions : list FieldAction) : nat :=
  length (filter (fun a => match a with PressMinus _ => true | _ => false end)
            actions).

(** The eye image of an [InputField] (lines 48-55) exists only under
    [showPasswordToggle]; clicking it calls [togglePassword]. *)
Definition clickEye (props : InputFieldProps) (st : InputFieldState)
  : option InputFieldState :=
  if showPasswordToggle props then Some (togglePassword st) else None.

(** [n] clicks in a row, each on the eye as rendered then. *)
Fixpoint clickEyeTimes (n : nat) (props : InputFieldProps)
  (st : InputFieldState) : option InputFieldState :=
  match n with
  | 0 => Some st
  | S k =>
      match clickEye props st with
      | Some st' => clickEyeTimes k props st'
      | None => None
      end
  end.

(** An expression all of whose classes ignore the case of letters. *)
Fixpoint caseBlind (r : RegExp) : Prop :=
  match r with
  | Void | Eps => True
  | Class p => forall c, p (toUpperCase c) = p c
  | Seq r1 r2 | Alt r1 r2 => caseBlind r1 /\ caseBlind r2
  | AtLeast _ r1 => caseBlind r1
  end.

(** * Properties *)

(** ** The submission workflow *)

Section WorkflowFacts.
Variable Remote : Type.
Variable signUp : SignUpRequest -> Remote -> Settled AuthResponse * Remote.
Variable insert :
  string -> EstablishmentRow -> Remote -> Settled InsertResponse * Remote.

Local Abbreviation World := (World Remote).
Local Abbreviation onSubmit := (onSubmit signUp insert).
Local Abbreviation submit := (submit signUp insert).
Local Abbreviation insertEstablishment := (insertEstablishment insert).
Local Abbreviation insertAll := (insertAll insert).
Local Abbreviation attempted := (attempted insert).
Local Abbreviation allSucceed := (allSucceed signUp insert).

(** The insertion requests for a list of entries, as effects. *)
Local Abbreviation requests user ests :=
  (map (fun e => CallInsert "establishments" (establishmentRow user e)) ests).

(** One iteration of the loop. *)
Lemma insertEstablishment_run user e (w : World) :
  insertEstablishment user e w =
    let w1 := log (CallInsert "establishments" (establishmentRow user e)) w in
    let (reply, r') :=
      insert "establishments" (establishmentRow user e) (remote w) in
    (match insertFailure reply with
     | None => Normal tt
     | Some t => Abrupt t
     end, with_remote r' w1).
Proof.
  unfold insertEstablishment, bind, await, supabase_from_insert. simpl.
  destruct (insert _ _ _) as [[res|t] r']; simpl; [|reflexivity].
  destruct (est_error res); reflexivity.
Qed.

(** The loop when the service accepts every entry. *)
Lemma for_of_all_inserted user ests : forall (w : World) r',
  insertAll user ests (remote w) = Some r' ->
  for_of ests (insertEstablishment user) w =
    (Normal tt,
     mkWorld (isLoading w) (errorMessage w) r'
       (effects w ++ requests user ests)).
Proof.
  induction ests as [|e rest IH]; intros w r' H; simpl in *.
  - injection H as <-. rewrite app_nil_r. destruct w; reflexivity.
  - unfold bind at 1. rewrite insertEstablishment_run. cbv zeta.
    destruct (insert _ _ _) as [reply r1].
    destruct (insertFailure reply); [discriminate|].
    rewrite IH with (r' := r') by exact H. simpl.
    rewrite <- app_assoc. reflexivity.
Qed.

(** The loop when the service accepts the entries of [before] and fails
    the next one: the value is thrown there and [after] is not visited. *)
Lemma for_of_insert_fails user before e after :
  forall (w : World) r2 reply r3 t,
  insertAll user before (remote w) = Some r2 ->
  insert "establishments" (establishmentRow user e) r2 = (reply, r3) ->
  insertFailure reply = Some t ->
  for_of (before ++ e :: after) (insertEstablishment user) w =
    (Abrupt t,
     mkWorld (isLoading w) (errorMessage w) r3
       (effects w ++ requests user (before ++ [e]))).
Proof.
  induction before as [|b rest IH]; intros w r2 reply r3 t Hall Hins Hfail;
    simpl in *.
  - injection Hall as <-.
    unfold bind at 1. rewrite insertEstablishment_run. cbv zeta.
    rewrite Hins, Hfail. reflexivity.
  - unfold bind at 1. rewrite insertEstablishment_run. cbv zeta.
    destruct (insert _ _ (remote w)) as [reply1 r1].
    destruct (insertFailure reply1); [discriminate|].
    rewrite IH with (r2 := r2) (reply := reply) (r3 := r3) (t := t)
      by assumption.
  simpl.
    rewrite <- app_assoc. reflexivity.
Qed.

(** The loop in general: the requests issued are those for the first
    [attempted] entries, nothing else is touched, and the loop completes
    normally exactly when the service accepts every entry. *)
Lemma for_of_attempted user ests : forall (w : World),
  exists c r',
    for_of ests (insertEstablishment user) w =
      (c, mkWorld (isLoading w) (errorMessage w) r'
            (effects w
             ++ requests user (firstn (attempted user ests (remote w)) ests)))
    /\ match insertAll user ests (remote w) with
       | Some r'' => c = Normal tt /\ r' = r''
       | None => exists t, c = Abrupt t
       end.
Proof.
  induction ests as [|e rest IH]; intros w; simpl.
  - exists (Normal tt), (remote w). rewrite app_nil_r.
    destruct w; simpl; auto.
  - unfold bind at 1. rewrite insertEstablishment_run. cbv zeta.
    destruct (insert _ _ (remote w)) as [reply r1].
    destruct (insertFailure reply) as [t|].
    + exists (Abrupt t), r1. simpl. split; [reflexivity|eauto].
    + destruct (IH (with_remote r1
                      (log (CallInsert "establishments"
                              (establishmentRow user e)) w)))
        as (c & r' & Hrun & Hres).
      exists c, r'. rewrite Hrun. simpl in *. rewrite <- app_assoc.
      split; [reflexivity|exact Hres].
Qed.

Lemma attempted_le user ests : forall r,
  attempted user ests r <= length ests.
Proof.
  induction ests as [|e rest IH]; intros r; simpl; [lia|].
  destruct (insert _ _ r) as [reply r1].
  destruct (insertFailure reply); [lia|]. specialize (IH r1). lia.
Qed.

Lemma attempted_all user ests : forall r r',
  insertAll user ests r = Some r' -> attempted user ests r = length ests.
Proof.
  induction ests as [|e rest IH]; intros r r' H; simpl in *; [reflexivity|].
  destruct (insert _ _ r) as [reply r1].
  destruct (insertFailure reply); [discriminate|].
  f_equal. eauto.
Qed.
(** The effect projections distribute over concatenation and ignore
    insertion requests where they should. *)
Lemma insertsOf_app (a b : list Effect) :
  insertsOf (a ++ b) = insertsOf a ++ insertsOf b.
Proof. apply flat_map_app. Qed.

Lemma toastsOf_app (a b : list Effect) :
  toastsOf (a ++ b) = toastsOf a ++ toastsOf b.
Proof. apply flat_map_app. Qed.

Lemma navigationsOf_app (a b : list Effect) :
  navigationsOf (a ++ b) = navigationsOf a ++ navigationsOf b.
Proof. apply flat_map_app. Qed.

Lemma signUpsOf_app (a b : list Effect) :
  signUpsOf (a ++ b) = signUpsOf a ++ signUpsOf b.
Proof. apply flat_map_app. Qed.

Lemma insertTablesOf_app (a b : list Effect) :
  insertTablesOf (a ++ b) = insertTablesOf a ++ insertTablesOf b.
Proof. apply flat_map_app. Qed.

Lemma insertsOf_requests user ests :
  insertsOf (requests user ests) = map (establishmentRow user) ests.
Proof. induction ests; simpl; congruence. Qed.

Lemma insertTablesOf_requests user ests :
  insertTablesOf (requests user ests) = repeat "establishments" (length ests).
Proof. induction ests; simpl; congruence. Qed.

Lemma toastsOf_requests user ests : toastsOf (requests user ests) = [].
Proof. induction ests; simpl; congruence. Qed.

Lemma navigationsOf_requests user ests :
  navigationsOf (requests user ests) = [].
Proof. induction ests; simpl; congruence. Qed.

Lemma signUpsOf_requests user ests : signUpsOf (requests user ests) = [].
Proof. induction ests; simpl; congruence. Qed.

Lemma js_or_str_nonempty m d : d <> "" -> js_or_str m d <> "".
Proof.
  intros Hd. destruct m as [s|]; simpl; [|exact Hd].
  destruct (s =? "") eqn:E; [exact Hd|].
  apply String.eqb_neq. exact E.
Qed.

(** The [try] block: the sign-up request goes out first; a failure is
    thrown, a missing identity ends the block, and otherwise the loop, the
    success toast and the redirect follow. *)
Lemma onSubmit_try_run data (w : World) :
  onSubmit_try signUp insert data w =
    let w1 := log (CallSignUp (signUpRequest data)) w in
    let (reply, r1) := signUp (signUpRequest data) (remote w) in
    let w2 := with_remote r1 w1 in
    match signUpFailure reply with
    | Some t => (Abrupt t, w2)
    | None =>
        match reply with
        | Resolved {| auth_user := Some user |} =>
            bind (for_of (establishments data) (insertEstablishment user))
              (fun _ => bind (toast successToast)
                          (fun _ => navigate "/owner/login")) w2
        | _ => (Normal tt, w2)
        end
    end.
Proof.
  unfold onSubmit_try, bind at 1, await, supabase_auth_signUp. simpl.
  destruct (signUp _ _) as [[[u e]|t] r1]; simpl; [|reflexivity].
  destruct e; simpl; [reflexivity|]. destruct u; reflexivity.
Qed.

(** The [catch] block on a value that has (or lacks) a [message]. *)
Lemma onSubmit_catch_value m (w : World) :
  onSubmit_catch (ThrownValue m) w =
    (Normal tt,
     mkWorld (isLoading w)
       (js_or_str m "Failed to register. Please try again.")
       (remote w)
       (effects w ++ [CallConsoleError "Signup error:" (ThrownValue m);
                      CallToast (failureToast m)])).
Proof.
  unfold onSubmit_catch, bind, console_error, setErrorMessage, toast, log.
  simpl. rewrite <- app_assoc. reflexivity.
Qed.

(** The [catch] block on [null] or [undefined]: reading [message] throws. *)
Lemma onSubmit_catch_nullish (w : World) :
  onSubmit_catch ThrownNullish w =
    (Abrupt TypeError, log (CallConsoleError "Signup error:" ThrownNullish) w).
Proof. reflexivity. Qed.

(** [onSubmit] around its [try] block. *)
Lemma onSubmit_run data previousError r :
  submit data previousError r =
    match onSubmit_try signUp insert data (mkWorld true "" r []) with
    | (Normal _, w) =>
        (Normal tt, mkWorld false (errorMessage w) (remote w) (effects w))
    | (Abrupt t, w) =>
        match onSubmit_catch t w with
        | (c, w') =>
            (c, mkWorld false (errorMessage w') (remote w') (effects w'))
        end
    end.
Proof.
  unfold submit, onSubmit, start, bind, try_finally,
    try_catch, setIsLoading, setErrorMessage. simpl.
  destruct (onSubmit_try _ _ _ _) as [[[]|t] w]; simpl; [reflexivity|].
  destruct (onSubmit_catch t w) as [c w']. reflexivity.
Qed.
Lemma phase_failed (w : World) :
  isLoading w = false -> errorMessage w <> "" -> phase w = Failed.
Proof.
  unfold phase. intros -> H. apply String.eqb_neq in H. rewrite H. reflexivity.
Qed.

Ltac run_submit :=
  rewrite onSubmit_run, onSubmit_try_run; cbv zeta; simpl remote.

(** Reads the projections off an effect list written with [++]. *)
Ltac project :=
  cbn [snd effects errorMessage isLoading remote];
  rewrite ?insertsOf_app, ?toastsOf_app, ?navigationsOf_app, ?signUpsOf_app,
    ?insertTablesOf_app, ?insertsOf_requests, ?toastsOf_requests,
    ?navigationsOf_requests, ?signUpsOf_requests, ?insertTablesOf_requests;
  cbn [insertsOf toastsOf navigationsOf signUpsOf insertTablesOf flat_map app];
  rewrite ?app_nil_r.

(** C3. When the account-creation call fails with an error (the reply
    carries an error object, or the promise is rejected with one), the run
    is: the sign-up request, the console log, the failure toast.  No
    insertion request is issued, the form ends Failed with the inline
    message set, exactly one toast is shown and it is the failure one, and
    there is no navigation. *)
Theorem signUp_error_fails data previousError r reply r1 m :
  signUp (signUpRequest data) r = (reply, r1) ->
  signUpFailure reply = Some (ThrownValue m) ->
  let w := snd (submit data previousError r) in
  submit data previousError r =
    (Normal tt,
     mkWorld false (js_or_str m "Failed to register. Please try again.") r1
       [CallSignUp (signUpRequest data);
        CallConsoleError "Signup error:" (ThrownValue m);
        CallToast (failureToast m)])
  /\ insertsOf (effects w) = []
  /\ phase w = Failed
  /\ errorMessage w <> ""
  /\ toastsOf (effects w) = [failureToast m]
  /\ severity (failureToast m) = SeverityFailure
  /\ navigationsOf (effects w) = [].
Proof.
  intros Hsign Hfail w. subst w. run_submit.
  rewrite Hsign, Hfail, onSubmit_catch_value.
  assert (Hmsg : js_or_str m "Failed to register. Please try again." <> "")
    by (apply js_or_str_nonempty; discriminate).
  repeat split; try exact Hmsg.
  apply phase_failed; [reflexivity|exact Hmsg].
Qed.

(** C1 (what the code does).  When the account-creation call resolves with
    neither an error nor a user, the run is the sign-up request and nothing
    else: the [if (authData.user)] block is skipped and nothing is thrown.
    No insertion request is issued, but the inline message stays empty, no
    toast is shown, and the form is back to Idle, not Failed. *)
Theorem no_identity_ends_silently data previousError r r1 :
  signUp (signUpRequest data) r =
    (Resolved {| auth_user := None; auth_error := None |}, r1) ->
  let w := snd (submit data previousError r) in
  submit data previousError r =
    (Normal tt, mkWorld false "" r1 [CallSignUp (signUpRequest data)])
  /\ insertsOf (effects w) = []
  /\ errorMessage w = ""
  /\ toastsOf (effects w) = []
  /\ phase w = Idle.
Proof.
  intros Hsign w. subst w. run_submit. rewrite Hsign.
  repeat split.
Qed.

(** C2. When the account is created, the insertions for the entries of
    [before] succeed and the insertion for the next entry [e] fails with an
    error, the run is: the sign-up request, the insertion requests for
    [before] and [e] in order, the console log, the failure toast.  No
    request is issued for an entry of [after], the form ends Failed with the
    inline message set, exactly one toast is shown and it is the failure
    one, there is no navigation, and the service is left in the state the
    failing insertion put it in: nothing is issued to undo the account or
    the rows already inserted. *)
Theorem insert_error_fails data previousError r user r1 before e after r2
    reply r3 m :
  signUp (signUpRequest data) r =
    (Resolved {| auth_user := Some user; auth_error := None |}, r1) ->
  establishments data = before ++ e :: after ->
  insertAll user before r1 = Some r2 ->
  insert "establishments" (establishmentRow user e) r2 = (reply, r3) ->
  insertFailure reply = Some (ThrownValue m) ->
  let w := snd (submit data previousError r) in
  submit data previousError r =
    (Normal tt,
     mkWorld false (js_or_str m "Failed to register. Please try again.") r3
       ([CallSignUp (signUpRequest data)]
        ++ requests user (before ++ [e])
        ++ [CallConsoleError "Signup error:" (ThrownValue m);
            CallToast (failureToast m)]))
  /\ insertsOf (effects w) = map (establishmentRow user) (before ++ [e])
  /\ phase w = Failed
  /\ errorMessage w <> ""
  /\ toastsOf (effects w) = [failureToast m]
  /\ severity (failureToast m) = SeverityFailure
  /\ navigationsOf (effects w) = []
  /\ remote w = r3.
Proof.
  intros Hsign Hests Hbefore Hins Hfail w.
  assert (Hmsg : js_or_str m "Failed to register. Please try again." <> "")
    by (apply js_or_str_nonempty; discriminate).
  assert (Hrun : submit data previousError r =
    (Normal tt,
     mkWorld false (js_or_str m "Failed to register. Please try again.") r3
       ([CallSignUp (signUpRequest data)]
        ++ requests user (before ++ [e])
        ++ [CallConsoleError "Signup error:" (ThrownValue m);
            CallToast (failureToast m)]))).
  { run_submit. rewrite Hsign. cbn [signUpFailure auth_error option_map].
    rewrite Hests. unfold bind at 1.
    rewrite for_of_insert_fails
      with (r2 := r2) (reply := reply) (r3 := r3) (t := ThrownValue m)
      by assumption.
    rewrite onSubmit_catch_value.
    cbn [effects errorMessage isLoading remote log with_remote].
    rewrite <- !app_assoc. reflexivity. }
  subst w. rewrite Hrun. project.
  repeat split; try exact Hmsg.
  apply phase_failed; [reflexivity|exact Hmsg].
Qed.
(** What the [catch] and [finally] blocks make of a value [t] thrown after
    the sign-up request and the insertion requests [reqs], with the service
    in state [r']. *)
Local Abbreviation Caught data previousError r t r' reqs :=
  (match t with
   | ThrownValue m =>
       submit data previousError r =
         (Normal tt,
          mkWorld false (js_or_str m "Failed to register. Please try again.")
            r'
            ([CallSignUp (signUpRequest data)] ++ reqs
             ++ [CallConsoleError "Signup error:" (ThrownValue m);
                 CallToast (failureToast m)]))
   | ThrownNullish =>
       submit data previousError r =
         (Abrupt TypeError,
          mkWorld false "" r'
            ([CallSignUp (signUpRequest data)] ++ reqs
             ++ [CallConsoleError "Signup error:" ThrownNullish]))
   end).

(** Every run of the handler, by what the service answers. *)
Lemma submit_spec data previousError r :
  match signUp (signUpRequest data) r with
  | (reply, r1) =>
      match signUpFailure reply with
      | Some t => Caught data previousError r t r1 []
      | None =>
          match reply with
          | Resolved {| auth_user := Some user |} =>
              match insertAll user (establishments data) r1 with
              | Some r2 =>
                  submit data previousError r =
                    (Normal tt,
                     mkWorld false "" r2
                       ([CallSignUp (signUpRequest data)]
                        ++ requests user (establishments data)
                        ++ [CallToast successToast;
                            CallNavigate "/owner/login"]))
              | None =>
                  exists t r',
                    Caught data previousError r t r'
                      (requests user
                         (firstn (attempted user (establishments data) r1)
                            (establishments data)))
              end
          | _ =>
              submit data previousError r =
                (Normal tt,
                 mkWorld false "" r1 [CallSignUp (signUpRequest data)])
          end
      end
  end.
Proof.
  run_submit.
  destruct (signUp _ _) as [reply r1].
  destruct (signUpFailure reply) as [t|] eqn:Hfail.
  - destruct t as [|m];
      [rewrite onSubmit_catch_nullish | rewrite onSubmit_catch_value];
      reflexivity.
  - destruct reply as [[[user|] e]|t]; try reflexivity.
    match goal with
    | |- context [bind (for_of ?ests _) _ ?w] =>
        destruct (for_of_attempted user ests w) as (c & r' & Hrun & Hres)
    end.
    simpl remote in Hrun, Hres.
    destruct (insertAll _ _ _) as [r2|] eqn:Hall.
    + destruct Hres as [-> ->]. unfold bind at 1. rewrite Hrun.
      rewrite (attempted_all _ _ _ Hall), firstn_all.
      cbn [bind toast navigate log with_remote effects errorMessage
             isLoading remote].
      rewrite <- !app_assoc. reflexivity.
    + destruct Hres as [t ->]. exists t, r'.
      destruct t as [|m]; unfold bind at 1; rewrite Hrun;
        [rewrite onSubmit_catch_nullish | rewrite onSubmit_catch_value];
        cbn [log with_remote effects errorMessage isLoading remote];
        rewrite <- !app_assoc; reflexivity.
Qed.

(** [finally { setIsLoading(false) }] around any [try] and [catch] blocks:
    however they complete, [isLoading] is false afterwards. *)
Lemma finally_clears_loading (body : M World unit) handler (w : World) :
  isLoading
    (snd (try_finally (try_catch body handler) (setIsLoading false) w))
  = false.
Proof.
  unfold try_finally, try_catch, setIsLoading.
  destruct (body w) as [[[]|t] w1]; [reflexivity|].
  destruct (handler t w1); reflexivity.
Qed.

(** C4. Whatever the service does, and whether the handler completes
    normally or abruptly (the [catch] block can itself throw), [isLoading]
    is false when the handler is done: the form is not left in the
    Submitting state.  The same holds with any other [try] and [catch]
    blocks in place of the handler's. *)
Theorem submitting_is_cleared data previousError r :
  isLoading (snd (submit data previousError r)) = false
  /\ phase (snd (submit data previousError r)) <> Submitting
  /\ (forall (body : M World unit) handler (w : World),
        isLoading
          (snd (try_finally (try_catch body handler) (setIsLoading false) w))
        = false).
Proof.
  assert (H : isLoading (snd (submit data previousError r)) = false).
  { unfold submit, onSubmit, bind, setIsLoading at 1, setErrorMessage.
    apply finally_clears_loading. }
  split; [exact H|]. split; [|apply finally_clears_loading].
  unfold phase. rewrite H.
  destruct (negb _); [discriminate|].
  destruct (navigationsOf _); discriminate.
Qed.
(** When the service fails some insertion, [attempted] is the position of
    the first entry it fails. *)
Lemma attempted_first_failure user ests : forall r,
  insertAll user ests r = None ->
  exists before e after r2 reply r3 t,
    ests = before ++ e :: after
    /\ insertAll user before r = Some r2
    /\ insert "establishments" (establishmentRow user e) r2 = (reply, r3)
    /\ insertFailure reply = Some t
    /\ attempted user ests r = S (length before).
Proof.
  induction ests as [|e rest IH]; intros r H; simpl in *; [discriminate|].
  destruct (insert _ _ r) as [reply r1] eqn:Hins.
  destruct (insertFailure reply) as [t|] eqn:Hfail.
  - exists [], e, rest, r, reply, r1, t. simpl. auto.
  - destruct (IH r1 H) as (before & e' & after & r2 & reply' & r3 & t & Hests
                           & Hbefore & Hins' & Hfail' & Hn).
    exists (e :: before), e', after, r2, reply', r3, t. simpl.
    rewrite Hins, Hfail, Hn. subst rest. auto 10.
Qed.

(** Case analysis on a run, from [submit_spec]: the goal is rewritten with
    the result of the run in each case. *)
Ltac by_submit_spec data previousError r user r1 Hall :=
  let Hspec := fresh "Hspec" in
  let e := fresh "e" in
  let t := fresh "t" in
  let r' := fresh "r'" in
  pose proof (submit_spec data previousError r) as Hspec;
  destruct (signUp (signUpRequest data) r) as [[[[user|] [e|]]|t] r1];
  cbn [signUpFailure option_map auth_error auth_user] in Hspec;
  unfold thrown_of in Hspec;
  [ | destruct (insertAll user (establishments data) r1) eqn:Hall;
      [ | destruct Hspec as (t & r' & Hspec); destruct t ]
    | | | destruct t ];
  rewrite Hspec; clear Hspec.

(** C5. When the service creates the account and accepts every insertion,
    the run is: the sign-up request, one insertion request per entry, the
    success toast, the redirect.  The form ends in Success, exactly one toast
    is shown and it has the success look, and exactly one navigation is made,
    to "/owner/login".  In every other run there is no navigation at all. *)
Theorem success_toast_and_navigation data previousError r :
  let w := snd (submit data previousError r) in
  match signUp (signUpRequest data) r with
  | (Resolved {| auth_user := Some user; auth_error := None |}, r1) =>
      match insertAll user (establishments data) r1 with
      | Some r2 =>
          submit data previousError r =
            (Normal tt,
             mkWorld false "" r2
               ([CallSignUp (signUpRequest data)]
                ++ requests user (establishments data)
                ++ [CallToast successToast; CallNavigate "/owner/login"]))
          /\ phase w = Success
          /\ toastsOf (effects w) = [successToast]
          /\ severity successToast = SeveritySuccess
          /\ navigationsOf (effects w) = ["/owner/login"]
      | None => navigationsOf (effects w) = []
      end
  | _ => navigationsOf (effects w) = []
  end.
Proof.
  intros w. subst w.
  by_submit_spec data previousError r user r1 Hall;
    try (project; reflexivity).
  repeat split; try (project; reflexivity).
  unfold phase. project. reflexivity.
Qed.
(** C6 (amended). When the account is created, the insertion requests are
    issued for the entries in list order, one per entry, each into the
    "establishments" table and carrying the new account's identifier, the
    entry's name, the entry's certificate number and the status
    "unregistered" -- up to and including the first entry whose insertion
    fails.  When none fails that is every entry; otherwise the entries after
    the failing one get no request. *)
Theorem inserts_follow_entries data previousError r user r1 :
  signUp (signUpRequest data) r =
    (Resolved {| auth_user := Some user; auth_error := None |}, r1) ->
  let w := snd (submit data previousError r) in
  let n := attempted user (establishments data) r1 in
  insertsOf (effects w) =
    map (fun e => {| owner_id := user_id user;
                     row_name := name e;
                     dti_cert_no := dtiCertNo e;
                     status := "unregistered" |})
      (firstn n (establishments data))
  /\ insertTablesOf (effects w) = repeat "establishments" n
  /\ n <= length (establishments data)
  /\ match insertAll user (establishments data) r1 with
     | Some _ => n = length (establishments data)
     | None =>
         exists before e after r2 reply r3 t,
           establishments data = before ++ e :: after
           /\ insertAll user before r1 = Some r2
           /\ insert "establishments" (establishmentRow user e) r2
              = (reply, r3)
           /\ insertFailure reply = Some t
           /\ n = S (length before)
     end.
Proof.
  intros Hsign w n.
  assert (Hle : n <= length (establishments data)) by apply attempted_le.
  assert (Hlen : length (firstn n (establishments data)) = n)
    by (apply firstn_length_le; exact Hle).
  assert (Hw : insertsOf (effects w)
               = map (establishmentRow user) (firstn n (establishments data))
               /\ insertTablesOf (effects w) = repeat "establishments" n).
  { subst w n. pose proof (submit_spec data previousError r) as Hspec.
    rewrite Hsign in Hspec.
    cbn [signUpFailure option_map auth_error auth_user] in Hspec.
    destruct (insertAll user (establishments data) r1) eqn:Hall.
    - rewrite Hspec. project.
      rewrite (attempted_all _ _ _ Hall), firstn_all. auto.
    - destruct Hspec as (t & r' & Hspec).
      destruct t; rewrite Hspec; project; rewrite Hlen; auto. }
  destruct Hw as [Hrows Htables].
  repeat split; try assumption.
  destruct (insertAll user (establishments data) r1) eqn:Hall.
  - eapply attempted_all; eassumption.
  - apply attempted_first_failure; exact Hall.
Qed.

(** C7. In every run exactly one account-creation call is made, it is the
    first thing the handler does, and its argument carries the form's email
    and password and a profile with the first and last name, the role
    "establishment_owner", and the middle name -- as [null] when the form's
    middle name is absent or empty, and never as the empty string. *)
Theorem signUp_request_payload data previousError r :
  let w := snd (submit data previousError r) in
  let req := signUpRequest data in
  hd_error (effects w) = Some (CallSignUp req)
  /\ signUpsOf (effects w) = [req]
  /\ req_email req = email data
  /\ req_password req = password data
  /\ first_name (req_options_data req) = firstName data
  /\ last_name (req_options_data req) = lastName data
  /\ role (req_options_data req) = "establishment_owner"
  /\ middle_name (req_options_data req) =
       match middleName data with
       | Some s => if s =? "" then None else Some s
       | None => None
       end
  /\ middle_name (req_options_data req) <> Some "".
Proof.
  intros w req.
  assert (Hw : hd_error (effects w) = Some (CallSignUp req)
               /\ signUpsOf (effects w) = [req]).
  { subst w req.
    by_submit_spec data previousError r user r1 Hall;
      project; split; reflexivity. }
  destruct Hw as [Hhd Hcalls].
  repeat split; try assumption.
  - subst req. unfold signUpRequest, js_or_null, truthy. simpl.
    destruct (middleName data) as [s|]; [|reflexivity].
    destruct (s =? ""); reflexivity.
  - subst req. unfold signUpRequest, js_or_null, truthy. simpl.
    destruct (middleName data) as [s|]; [|discriminate].
    destruct (s =? "") eqn:E; simpl; [discriminate|].
    intros [= ->]. discriminate.
Qed.
(** *** Further facts about the handler *)

Lemma consoleErrorsOf_app (a b : list Effect) :
  consoleErrorsOf (a ++ b) = consoleErrorsOf a ++ consoleErrorsOf b.
Proof. apply flat_map_app. Qed.

Lemma consoleErrorsOf_requests user ests :
  consoleErrorsOf (requests user ests) = [].
Proof. induction ests; simpl; congruence. Qed.

Ltac project_all :=
  cbn [fst snd effects errorMessage isLoading remote];
  rewrite ?insertsOf_app, ?toastsOf_app, ?navigationsOf_app, ?signUpsOf_app,
    ?insertTablesOf_app, ?consoleErrorsOf_app, ?insertsOf_requests,
    ?toastsOf_requests, ?navigationsOf_requests, ?signUpsOf_requests,
    ?insertTablesOf_requests, ?consoleErrorsOf_requests;
  cbn [insertsOf toastsOf navigationsOf signUpsOf insertTablesOf
         consoleErrorsOf flat_map app];
  rewrite ?app_nil_r.

Lemma failureToast_not_success m : failureToast m <> successToast.
Proof. discriminate. Qed.

Lemma fallback_nonempty m :
  js_or_str m "Failed to register. Please try again." <> "".
Proof. apply js_or_str_nonempty. discriminate. Qed.

(** X1. The message left on the form by an earlier attempt has no influence on
    a run: the handler clears it before anything else. *)
Theorem previous_error_is_forgotten data e1 e2 r :
  submit data e1 r = submit data e2 r.
Proof. rewrite !onSubmit_run. reflexivity. Qed.

(** X2. Every run has the same outline: the sign-up request, then insertion
    requests for a prefix of the entries, then at most two calls to the
    console, the notifier or the router.  No request goes to the service
    once one of those has been called, and none of the insertion requests is
    issued unless the sign-up resolved with a user and without an error. *)
Theorem remote_calls_come_first data previousError r :
  let w := snd (submit data previousError r) in
  exists rows tail,
    effects w
    = [CallSignUp (signUpRequest data)]
      ++ map (CallInsert "establishments") rows ++ tail
    /\ length rows <= length (establishments data)
    /\ signUpsOf tail = [] /\ insertsOf tail = []
    /\ length tail <= 2
    /\ match signUp (signUpRequest data) r with
       | (Resolved {| auth_user := Some user; auth_error := None |}, _) =>
           rows = map (establishmentRow user)
                    (firstn (length rows) (establishments data))
       | _ => rows = []
       end.
Proof.
  intros w. subst w.
  assert (Hreq : forall user n,
             requests user (firstn n (establishments data))
             = map (CallInsert "establishments")
                 (map (establishmentRow user)
                    (firstn n (establishments data))))
    by (intros; rewrite map_map; reflexivity).
  assert (Hlen : forall user (n : nat),
             length (map (establishmentRow user)
                       (firstn n (establishments data)))
             <= length (establishments data))
    by (intros; rewrite length_map, length_firstn; lia).
  assert (Hpre : forall user (n : nat),
             map (establishmentRow user) (firstn n (establishments data))
             = map (establishmentRow user)
                 (firstn
                    (length (map (establishmentRow user)
                               (firstn n (establishments data))))
                    (establishments data))).
  { intros user n. rewrite length_map, length_firstn.
    destruct (Nat.le_ge_cases n (length (establishments data))) as [H|H].
    - rewrite Nat.min_l by exact H. reflexivity.
    - rewrite Nat.min_r by exact H. rewrite !firstn_all2 by lia.
      reflexivity. }
  by_submit_spec data previousError r user r1 Hall; cbn [snd effects].
  - eexists [], _. split; [reflexivity|]. simpl. repeat split; lia.
  - exists (map (establishmentRow user) (establishments data)).
    eexists. rewrite map_map. split; [reflexivity|].
    rewrite length_map, firstn_all. repeat split; simpl; lia.
  - rewrite Hreq. eexists _, _. split; [reflexivity|].
    split; [apply Hlen|]. split; [reflexivity|]. split; [reflexivity|].
    split; [simpl; lia|]. apply Hpre.
  - rewrite Hreq. eexists _, _. split; [reflexivity|].
    split; [apply Hlen|]. split; [reflexivity|]. split; [reflexivity|].
    split; [simpl; lia|]. apply Hpre.
  - eexists [], _. split; [reflexivity|]. simpl. repeat split; lia.
  - eexists [], []. split; [reflexivity|]. simpl. repeat split; lia.
  - eexists [], _. split; [reflexivity|]. simpl. repeat split; lia.
  - eexists [], _. split; [reflexivity|]. simpl. repeat split; lia.
Qed.
(** X3. What the form shows after a run agrees with the notification: it is
    in Success exactly when the success toast was shown (and then the
    redirect was made), in Failed exactly when a failure toast was shown,
    and back in Idle exactly when no toast was shown.  No run shows two
    toasts. *)
Theorem phase_agrees_with_toast data previousError r :
  let w := snd (submit data previousError r) in
  (phase w = Success <-> toastsOf (effects w) = [successToast])
  /\ (phase w = Success <-> navigationsOf (effects w) = ["/owner/login"])
  /\ (phase w = Failed <-> exists m, toastsOf (effects w) = [failureToast m])
  /\ (phase w = Idle <-> toastsOf (effects w) = [])
  /\ length (toastsOf (effects w)) <= 1.
Proof.
  intros w. subst w.
  assert (Hfailed : forall m (r' : Remote) es,
             phase (mkWorld false
                      (js_or_str m "Failed to register. Please try again.")
                      r' es) = Failed).
  { intros. apply phase_failed; [reflexivity|apply fallback_nonempty]. }
  assert (Hquiet : forall (r' : Remote) es,
             phase (mkWorld false "" r' es)
             = match navigationsOf es with [] => Idle | _ :: _ => Success end)
    by reflexivity.
  by_submit_spec data previousError r user r1 Hall; cbn [snd];
    rewrite ?Hfailed, ?Hquiet; project_all;
    (split; [|split; [|split; [|split]]]);
    try (simpl; lia);
    try (split; [reflexivity | reflexivity]);
    try (split; intros H; discriminate H);
    try (split; [intros _; eexists; reflexivity | reflexivity]);
    try (split; [intros H; discriminate H | intros [m H]; discriminate H]).
Qed.


(** X5. The value logged to the console decides what the user is told: the
    inline message and the toast both carry its [message] when that is a
    non-empty string; otherwise each falls back to its own sentence. *)
Theorem logged_error_is_reported data previousError r m :
  consoleErrorsOf (effects (snd (submit data previousError r)))
    = [ThrownValue m] ->
  let w := snd (submit data previousError r) in
  toastsOf (effects w) = [failureToast m]
  /\ errorMessage w = js_or_str m "Failed to register. Please try again."
  /\ (if truthy m
      then Some (errorMessage w) = m
           /\ Some (description (failureToast m)) = m
      else errorMessage w = "Failed to register. Please try again."
           /\ description (failureToast m)
              = "An error occurred during registration.").
Proof.
  intros H w. subst w. revert H.
  assert (Hm : if truthy m
               then Some (js_or_str m "Failed to register. Please try again.")
                    = m
                    /\ Some (description (failureToast m)) = m
               else js_or_str m "Failed to register. Please try again."
                    = "Failed to register. Please try again."
                    /\ description (failureToast m)
                       = "An error occurred during registration.").
  { destruct m as [s|]; simpl; [|split; reflexivity].
    destruct (s =? ""); simpl; split; reflexivity. }
  by_submit_spec data previousError r user r1 Hall; project_all;
    intros H; try discriminate H;
    injection H as <-; repeat split; exact Hm.
Qed.


End WorkflowFacts.

(** *** Runs against the scripted service *)

(** A refused sign-up. *)
Lemma signUp_error_fails_witness :
  let data := Stub.form None [Stub.bakery] in
  let w := snd (Stub.submit data Stub.signUpRefused) in
  signUpFailure (Stub.rejectedSignUp "User already registered")
    = Some (ThrownValue (Some "User already registered"))
  /\ insertsOf (effects w) = []
  /\ phase w = Failed
  /\ errorMessage w = "User already registered"
  /\ navigationsOf (effects w) = [].
Proof.
  intros data w.
  destruct (@signUp_error_fails _ Stub.signUp Stub.insert data ""
              Stub.signUpRefused _ _ _ eq_refl eq_refl)
    as (Hrun & Hins & Hphase & _ & _ & _ & Hnav).
  split; [reflexivity|]. split; [exact Hins|]. split; [exact Hphase|].
  split; [|exact Hnav].
  exact (f_equal (fun cw => errorMessage (snd cw)) Hrun).
Defined.

(** A sign-up that resolves with neither an error nor a user. *)
Lemma no_identity_ends_silently_witness :
  let data := Stub.form None [Stub.bakery] in
  let w := snd (Stub.submit data Stub.signUpWithoutUser) in
  Stub.signUp (signUpRequest data) Stub.signUpWithoutUser
    = (Resolved {| auth_user := None; auth_error := None |},
       Stub.signUpWithoutUser)
  /\ errorMessage w = ""
  /\ toastsOf (effects w) = []
  /\ phase w = Idle.
Proof.
  intros data w.
  destruct (@no_identity_ends_silently _ Stub.signUp Stub.insert data ""
              Stub.signUpWithoutUser _ eq_refl)
    as (_ & _ & Hmsg & Htoasts & Hphase).
  split; [reflexivity|].
  exact (conj Hmsg (conj Htoasts Hphase)).
Defined.

(** Two entries of which the first is refused: the second is never
    requested. *)
Lemma insert_error_fails_witness :
  let data := Stub.form None [Stub.bakery; Stub.cafe] in
  let w := snd (Stub.submit data Stub.firstInsertRefused) in
  Stub.insert "establishments"
    (establishmentRow (mkUser "u-1") Stub.bakery) Stub.firstInsertRefused
    = (Stub.refused "duplicate key value", Stub.allAccepted)
  /\ insertsOf (effects w) = [establishmentRow (mkUser "u-1") Stub.bakery]
  /\ phase w = Failed
  /\ toastsOf (effects w) = [failureToast (Some "duplicate key value")]
  /\ navigationsOf (effects w) = [].
Proof.
  intros data w.
  destruct (@insert_error_fails _ Stub.signUp Stub.insert data ""
              Stub.firstInsertRefused (mkUser "u-1") Stub.firstInsertRefused
              [] Stub.bakery [Stub.cafe] Stub.firstInsertRefused
              (Stub.refused "duplicate key value") Stub.allAccepted
              (Some "duplicate key value")
              eq_refl eq_refl eq_refl eq_refl eq_refl)
    as (_ & Hins & Hphase & _ & Htoasts & _ & Hnav & _).
  split; [reflexivity|].
  exact (conj Hins (conj Hphase (conj Htoasts Hnav))).
Defined.

(** One request per entry does not hold when an insertion fails: with two
    entries and the first insertion refused, the account is created and only
    one insertion request is issued. *)
Lemma one_insert_per_entry_counterexample :
  let data := Stub.form None [Stub.bakery; Stub.cafe] in
  let w := snd (Stub.submit data Stub.firstInsertRefused) in
  Stub.signUp (signUpRequest data) Stub.firstInsertRefused
    = (Resolved {| auth_user := Some (mkUser "u-1"); auth_error := None |},
       Stub.firstInsertRefused)
  /\ length (establishments data) = 2
  /\ length (insertsOf (effects w)) = 1
  /\ insertsOf (effects w)
     <> map (establishmentRow (mkUser "u-1")) (establishments data).
Proof.
  repeat split. discriminate.
Qed.

(** The same run, and one where both insertions are accepted. *)
Lemma inserts_follow_entries_witness :
  let data := Stub.form None [Stub.bakery; Stub.cafe] in
  let row := establishmentRow (mkUser "u-1") in
  Stub.signUp (signUpRequest data) Stub.firstInsertRefused
    = (Stub.created "u-1", Stub.firstInsertRefused)
  /\ insertsOf (effects (snd (Stub.submit data Stub.firstInsertRefused)))
     = [row Stub.bakery]
  /\ Stub.signUp (signUpRequest data) Stub.allAccepted
     = (Stub.created "u-1", Stub.allAccepted)
  /\ insertsOf (effects (snd (Stub.submit data Stub.allAccepted)))
     = [row Stub.bakery; row Stub.cafe].
Proof.
  intros data row.
  split; [reflexivity|]. split; [|split; [reflexivity|]].
  - exact (proj1 (@inserts_follow_entries _ Stub.signUp Stub.insert data ""
                    Stub.firstInsertRefused (mkUser "u-1")
                    Stub.firstInsertRefused eq_refl)).
  - exact (proj1 (@inserts_follow_entries _ Stub.signUp Stub.insert data ""
                    Stub.allAccepted (mkUser "u-1") Stub.allAccepted
                    eq_refl)).
Defined.

(** A rejection with [undefined] makes the [catch] block itself throw; the
    handler completes abruptly and [isLoading] is false all the same. *)
Example nullish_rejection_run :
  Stub.submit (Stub.form None [Stub.bakery]) Stub.signUpRejectedNullish
  = (Abrupt TypeError,
     mkWorld false "" Stub.signUpRejectedNullish
       [CallSignUp (signUpRequest (Stub.form None [Stub.bakery]));
        CallConsoleError "Signup error:" ThrownNullish]).
Proof. reflexivity. Qed.

(** A successful run with two entries. *)
Example successful_run :
  let data := Stub.form (Some "") [Stub.bakery; Stub.cafe] in
  let user := mkUser "u-1" in
  Stub.submit data Stub.allAccepted
  = (Normal tt,
     mkWorld false "" Stub.allAccepted
       [CallSignUp
          (mkSignUpRequest "ana@example.com" "s3cretpass"
             (mkProfileData "Ana" None "Cruz" "establishment_owner"));
        CallInsert "establishments"
          (mkEstablishmentRow "u-1" "Bakery" "DTI-1" "unregistered");
        CallInsert "establishments"
          (mkEstablishmentRow "u-1" "Cafe" "DTI-2" "unregistered");
        CallToast successToast;
        CallNavigate "/owner/login"]).
Proof. reflexivity. Qed.

(** ** E-mail validation *)

Section RegExpFacts.
#[local] Hint Constructors Matches : core.

Lemma atLeast_nil r : Matches r [] -> forall n, Matches (AtLeast n r) [].
Proof.
  intros H n. induction n as [|n IH]; [constructor|].
  change (@nil ascii) with (@nil ascii ++ []). apply MAtLeastCons; assumption.
Qed.

Lemma atLeast_zero n r s : Matches (AtLeast n r) s -> Matches (AtLeast 0 r) s.
Proof.
  intros H. remember (AtLeast n r) as q eqn:Eq. revert n Eq.
  induction H; intros k Eq; try discriminate.
  - constructor.
  - injection Eq as -> ->. apply MAtLeastCons; [assumption|]. simpl. eauto.
Qed.

Lemma atLeast_more r s :
  Matches r [] -> Matches (AtLeast 0 r) s -> forall n, Matches (AtLeast n r) s.
Proof.
  intros Hnil H n. induction n as [|n IH]; [exact H|].
  change s with ([] ++ s). apply MAtLeastCons; assumption.
Qed.

Lemma nullable_sound r : nullable r = true -> Matches r [].
Proof.
  induction r as [| |p|r1 IH1 r2 IH2|r1 IH1 r2 IH2|n r IH]; simpl; intros H;
    try discriminate.
  - constructor.
  - apply andb_true_iff in H as [H1 H2].
    change (@nil ascii) with (@nil ascii ++ []). auto.
  - apply orb_true_iff in H as [H|H]; auto.
  - destruct n; [constructor|]. apply atLeast_nil. auto.
Qed.

Lemma nullable_complete r s : Matches r s -> s = [] -> nullable r = true.
Proof.
  induction 1 as [|p c Hp|r1 r2 s1 s2 H1 IH1 H2 IH2|r1 r2 s H IH|r1 r2 s H IH
                  |r|n r s1 s2 H1 IH1 H2 IH2]; simpl; intros E;
    try discriminate; try reflexivity.
  - apply app_eq_nil in E as [-> ->]. rewrite IH1, IH2; reflexivity.
  - rewrite IH by assumption. reflexivity.
  - rewrite IH by assumption. apply orb_true_r.
  - apply app_eq_nil in E as [-> ->]. destruct n; auto.
Qed.

Lemma nullable_iff r : nullable r = true <-> Matches r [].
Proof.
  split; [apply nullable_sound|]. intros H. eapply nullable_complete; eauto.
Qed.
(** A derivative matches the rest of what the expression matches. *)
Lemma deriv_sound c r : forall s, Matches (deriv c r) s -> Matches r (c :: s).
Proof.
  induction r as [| |p|r1 IH1 r2 IH2|r1 IH1 r2 IH2|n r IH]; simpl; intros s H.
  - inversion H.
  - inversion H.
  - destruct (p c) eqn:Hp; inversion H; subst. constructor. exact Hp.
  - destruct (nullable r1) eqn:Hn.
    + inversion H as [| | | ? ? ? HL | ? ? ? HR | |]; subst.
      * inversion HL; subst. change (c :: ?a ++ ?b) with ((c :: a) ++ b).
        auto.
      * change (c :: s) with ([] ++ c :: s).
        apply MSeq; [apply nullable_sound; exact Hn | auto].
    + inversion H; subst. change (c :: ?a ++ ?b) with ((c :: a) ++ b). auto.
  - inversion H; subst; auto.
  - destruct (nullable r) eqn:Hn; inversion H; subst;
      change (c :: ?a ++ ?b) with ((c :: a) ++ b);
      apply MAtLeastCons; auto.
    apply atLeast_more; [apply nullable_sound; exact Hn | assumption].
Qed.

Lemma deriv_complete c r cs :
  Matches r cs -> forall s, cs = c :: s -> Matches (deriv c r) s.
Proof.
  induction 1 as [|p d Hp|r1 r2 s1 s2 H1 IH1 H2 IH2|r1 r2 s0 H IH|r1 r2 s0 H IH
                  |r|n r s1 s2 H1 IH1 H2 IH2]; simpl; intros s E;
    try discriminate.
  - injection E as -> <-. rewrite Hp. constructor.
  - destruct s1 as [|d s1]; simpl in E.
    + subst s2. rewrite (nullable_complete H1 eq_refl). auto.
    + injection E as -> <-.
      destruct (nullable r1); [apply MAltL|]; auto.
  - auto.
  - auto.
  - destruct s1 as [|d s1]; simpl in E.
    + subst s2. rewrite (nullable_complete H1 eq_refl).
      specialize (IH2 s eq_refl). simpl in IH2.
      rewrite (nullable_complete H1 eq_refl) in IH2. exact IH2.
    + injection E as -> <-.
      destruct (nullable r); apply MSeq; auto.
      eapply atLeast_zero; eassumption.
Qed.

Lemma deriv_iff c r s : Matches (deriv c r) s <-> Matches r (c :: s).
Proof.
  split; [apply deriv_sound|]. intros H. eapply deriv_complete; eauto.
Qed.

(** The matcher decides the denotation. *)
Lemma test_chars_iff s : forall r, test_chars r s = true <-> Matches r s.
Proof.
  induction s as [|c s IH]; intros r; simpl.
  - apply nullable_iff.
  - rewrite IH. apply deriv_iff.
Qed.
(** Inversion of the constructs of the pattern. *)
Lemma class_iff p s : Matches (Class p) s <-> exists c, s = [c] /\ p c = true.
Proof.
  split.
  - intros H. inversion H; subst. eauto.
  - intros (c & -> & Hp). auto.
Qed.

Lemma seq_iff r1 r2 s :
  Matches (Seq r1 r2) s
  <-> exists s1 s2, s = s1 ++ s2 /\ Matches r1 s1 /\ Matches r2 s2.
Proof.
  split.
  - intros H. inversion H; subst. eauto.
  - intros (s1 & s2 & -> & H1 & H2). auto.
Qed.

(** [[...]{n,}]: at least [n] characters, all of the class. *)
Lemma atLeast_class_iff p s : forall n,
  Matches (AtLeast n (Class p)) s <-> forallb p s = true /\ n <= length s.
Proof.
  intros n. split.
  - intros H. remember (AtLeast n (Class p)) as q eqn:Eq. revert n Eq.
    induction H as [| | | | | |k r s1 s2 H1 _ H2 IH2]; intros n Eq;
      try discriminate.
    + injection Eq as <- _. split; [reflexivity|simpl; lia].
    + injection Eq as -> ->.
      apply class_iff in H1 as (c & -> & Hp).
      destruct (IH2 _ eq_refl) as [Hall Hlen].
      simpl. rewrite Hp, Hall. split; [reflexivity|lia].
  - revert n. induction s as [|c s IH]; simpl; intros n [Hall Hlen].
    + replace n with 0 by lia. constructor.
    + apply andb_true_iff in Hall as [Hp Hall].
      change (c :: s) with ([c] ++ s).
      apply MAtLeastCons; [auto|]. apply IH. split; [exact Hall|lia].
Qed.

(** The classes of the pattern, character by character. *)
Lemma localClass_spec c : localClass c = isLocalChar c.
Proof. destruct c as [[] [] [] [] [] [] [] []]; reflexivity. Qed.

Lemma domainClass_spec c : domainClass c = isDomainChar c.
Proof. destruct c as [[] [] [] [] [] [] [] []]; reflexivity. Qed.

Lemma letterClass_spec c : letterClass c = isLetter c.
Proof. destruct c as [[] [] [] [] [] [] [] []]; reflexivity. Qed.

Lemma atSign_spec c : atSign c = true <-> c = "@"%char.
Proof.
  split; [|intros ->; reflexivity].
  destruct c as [[] [] [] [] [] [] [] []]; simpl; intros H;
    first [reflexivity | discriminate H].
Qed.

Lemma dot_spec c : dot c = true <-> c = "."%char.
Proof.
  split; [|intros ->; reflexivity].
  destruct c as [[] [] [] [] [] [] [] []]; simpl; intros H;
    first [reflexivity | discriminate H].
Qed.

Lemma forallb_eq (p q : ascii -> bool) s :
  (forall c, p c = q c) -> forallb p s = forallb q s.
Proof. intros E. induction s; simpl; congruence. Qed.

Lemma nonempty_length (s : list ascii) : s <> [] <-> 1 <= length s.
Proof. destruct s; simpl; split; intros; try congruence; lia. Qed.

(** The expression denotes the shape the specification describes. *)
Lemma emailPattern_shape s : Matches emailPattern s <-> EmailShape s.
Proof.
  unfold emailPattern, EmailShape.
  rewrite seq_iff. split.
  - intros (l & s1 & -> & Hl & H1).
    apply seq_iff in H1 as (a & s2 & -> & Ha & H2).
    apply seq_iff in H2 as (d & s3 & -> & Hd & H3).
    apply seq_iff in H3 as (b & t & -> & Hb & Ht).
    apply class_iff in Ha as (ca & -> & Ha). apply atSign_spec in Ha as ->.
    apply class_iff in Hb as (cb & -> & Hb). apply dot_spec in Hb as ->.
    apply atLeast_class_iff in Hl as [Hl1 Hl2].
    apply atLeast_class_iff in Hd as [Hd1 Hd2].
    apply atLeast_class_iff in Ht as [Ht1 Ht2].
    exists l, d, t. simpl.
    rewrite <- (@forallb_eq _ _ l localClass_spec),
      <- (@forallb_eq _ _ d domainClass_spec),
      <- (@forallb_eq _ _ t letterClass_spec).
    rewrite !nonempty_length. auto 10.
  - intros (l & d & t & -> & Hl2 & Hl1 & Hd2 & Hd1 & Ht2 & Ht1).
    rewrite <- (@forallb_eq _ _ l localClass_spec) in Hl1.
    rewrite <- (@forallb_eq _ _ d domainClass_spec) in Hd1.
    rewrite <- (@forallb_eq _ _ t letterClass_spec) in Ht1.
    rewrite nonempty_length in Hl2, Hd2.
    exists l, ("@"%char :: d ++ "."%char :: t). split; [reflexivity|].
    split; [apply atLeast_class_iff; auto|].
    change ("@"%char :: d ++ "."%char :: t)
      with (["@"%char] ++ d ++ ["."%char] ++ t).
    apply MSeq; [apply MClass; reflexivity|].
    apply MSeq; [apply atLeast_class_iff; auto|].
    apply MSeq; [apply MClass; reflexivity|].
    apply atLeast_class_iff; auto.
Qed.

Lemma test_emailPattern value :
  test emailPattern value = true <-> EmailShape (list_ascii_of_string value).
Proof. unfold test. rewrite test_chars_iff. apply emailPattern_shape. Qed.
End RegExpFacts.

Lemma string_eqb_empty (value : string) : (value =? "") = true <-> value = "".
Proof. apply String.eqb_eq. Qed.

(** C8. The empty e-mail is reported as a missing required field (and only
    the empty one is).  A non-empty e-mail is reported as badly formatted
    exactly when it does not have the shape local-part@domain.tld that the
    regular expression denotes, letters being taken in either case.
    "bad-email" is badly formatted; "a@b.co" passes. *)
Theorem email_validation (value : string) :
  validateEmail "" = Some (mkFieldError TypeRequired "Email is required")
  /\ (emailViolation value = Some RequiredFieldMissing <-> value = "")
  /\ (emailViolation value = Some InvalidFormat
      <-> value <> "" /\ ~ EmailShape (list_ascii_of_string value))
  /\ (emailViolation value = None
      <-> EmailShape (list_ascii_of_string value))
  /\ (test emailPattern value = true
      <-> EmailShape (list_ascii_of_string value))
  /\ emailViolation "bad-email" = Some InvalidFormat
  /\ validateEmail "bad-email"
     = Some (mkFieldError TypePattern "Invalid email address")
  /\ emailViolation "a@b.co" = None.
Proof.
  pose proof (test_emailPattern value) as Htest.
  assert (Hempty : ~ EmailShape (list_ascii_of_string "")).
  { intros (l & d & t & E & _). destruct l; discriminate E. }
  unfold emailViolation, validateEmail, validateField, requiredError,
    patternError. cbn [emailRules required pattern].
  destruct (value =? "") eqn:Ev.
  - apply String.eqb_eq in Ev. subst value.
    cbn [negb andb option_map classify error_type].
    repeat split; try reflexivity; try discriminate; try tauto.
  - apply String.eqb_neq in Ev.
    destruct (test emailPattern value) eqn:Et;
      cbn [negb andb option_map classify error_type].
    + assert (Hs : EmailShape (list_ascii_of_string value))
        by (apply Htest; reflexivity).
      repeat split; try reflexivity; try discriminate; try tauto.
      + assert (Hs : ~ EmailShape (list_ascii_of_string value)).
      { intros H. apply Htest in H. discriminate. }
      repeat split; try reflexivity; try discriminate; try tauto.
  Qed.

(** The flag, the anchors and the length bounds on a few addresses. *)
Example email_samples :
  map (test emailPattern)
    ["a@b.co"; "A.B_c%d+e-f@EXAMPLE-1.Org"; "a@b.c"; "a@b"; "a@.co";
     "a b@c.de"; "a@b.co "; "@b.co"; "a@b.c0"]
  = [true; true; false; false; false; false; false; false; false].
Proof. reflexivity. Qed.

(** ** The establishments list *)

Lemma length_append value fields :
  length (append value fields) = S (length fields).
Proof. unfold append. rewrite length_app. simpl. lia. Qed.

Lemma length_remove index : forall fields,
  index < length fields -> length (remove index fields) = pred (length fields).
Proof.
  induction index as [|i IH]; intros [|first rest]; simpl; intros H;
    try lia.
  rewrite IH by lia. destruct rest; simpl in *; lia.
Qed.

Lemma length_update index f : forall fields,
  length (update index f fields) = length fields.
Proof.
  induction index as [|i IH]; intros [|first rest]; simpl; auto.
Qed.

(** An offered action leaves at least one entry. *)
Lemma perform_nonempty a fields :
  1 <= length fields -> offered fields a = true ->
  1 <= length (perform a fields).
Proof.
  intros Hlen Hoff. destruct a as [|index|index value|index value]; simpl in *.
  - rewrite length_append. lia.
  - apply andb_true_iff in Hoff as [Hpos Hlt].
    apply Nat.ltb_lt in Hpos, Hlt. rewrite length_remove by exact Hlt. lia.
  - rewrite length_update. exact Hlen.
  - rewrite length_update. exact Hlen.
Qed.

Lemma session_nonempty actions : forall fields fields',
  1 <= length fields -> session actions fields = Some fields' ->
  1 <= length fields'.
Proof.
  induction actions as [|a rest IH]; simpl; intros fields fields' Hlen H.
  - injection H as <-. exact Hlen.
  - destruct (offered fields a) eqn:Hoff; [|discriminate].
    eapply IH; [|exact H]. apply perform_nonempty; assumption.
Qed.

(** C9. The list starts as one blank entry.  After any sequence of actions
    the form offers (the plus button, the minus button of an entry, typing
    into an entry) it has at least one entry.  The minus button is never
    offered for index 0.  Pressing plus on a one-entry list and then the
    minus of index 1 gives back the one entry, unchanged. *)
Theorem establishments_never_empty actions fields' :
  session actions defaultEstablishments = Some fields' ->
  defaultEstablishments = [{| name := ""; dtiCertNo := "" |}]
  /\ 1 <= length fields'
  /\ (forall fields, offered fields (PressMinus 0) = false)
  /\ (forall first,
        perform PressPlus [first] = [first; blankEstablishment]
        /\ offered (perform PressPlus [first]) (PressMinus 1) = true
        /\ session [PressPlus; PressMinus 1] [first] = Some [first]).
Proof.
  intros H. split; [reflexivity|]. split.
  - eapply session_nonempty; [|exact H]. simpl. lia.
  - split; [reflexivity|]. intros first. repeat split.
Qed.

Lemma establishments_never_empty_witness :
  session [PressPlus; TypeName 1 "Cafe"; PressPlus; PressMinus 1]
    defaultEstablishments
  = Some [blankEstablishment; blankEstablishment]
  /\ 1 <= length [blankEstablishment; blankEstablishment].
Proof.
  split; [reflexivity|].
  exact (proj1 (proj2
    (@establishments_never_empty
       [PressPlus; TypeName 1 "Cafe"; PressPlus; PressMinus 1]
       [blankEstablishment; blankEstablishment] eq_refl))).
Defined.

(** ** InputField *)

(** C10. Toggling twice gives back the state, hence the rendered input
    type; when the configured type is "text" (given or by default) one
    toggle already leaves the rendered type as it was; and a toggle never
    changes the text the input holds. *)
Theorem togglePassword_involutive props st :
  togglePassword (togglePassword st) = st
  /\ inputType props (togglePassword (togglePassword st)) = inputType props st
  /\ inputType (mkInputFieldProps (label props) (icon props)
                  (showPasswordToggle props) (Some "text"))
       (togglePassword st) = "text"
  /\ inputType (mkInputFieldProps (label props) (icon props)
                  (showPasswordToggle props) (Some "text")) st = "text"
  /\ inputType (mkInputFieldProps (label props) (icon props)
                  (showPasswordToggle props) None)
       (togglePassword st)
     = inputType (mkInputFieldProps (label props) (icon props)
                    (showPasswordToggle props) None) st
  /\ inputValue (togglePassword st) = inputValue st.
Proof.
  destruct st as [[] text]; repeat split.
Qed.

(** A password field: masked when mounted, plain after one toggle, masked
    again after two. *)
Example password_field_toggle :
  let props := mkInputFieldProps "Password:" "icon" true (Some "password") in
  let st := mounted "hunter22" in
  inputType props st = "password"
  /\ inputType props (togglePassword st) = "text"
  /\ inputType props (togglePassword (togglePassword st)) = "password".
Proof. repeat split. Qed.

(** ** Further facts about the establishments list *)

Lemma nth_error_remove fields : forall index j,
  nth_error (remove index fields) j
  = if (j <? index)%nat then nth_error fields j else nth_error fields (S j).
Proof.
  induction fields as [|first rest IH]; intros index j.
  - destruct index, j; simpl; try reflexivity;
      destruct (_ <? _)%nat; reflexivity.
  - destruct index as [|i]; [reflexivity|].
    destruct j as [|j]; [reflexivity|]. exact (IH i j).
Qed.

Lemma remove_past_end fields : forall index,
  length fields <= index -> remove index fields = fields.
Proof.
  induction fields as [|first rest IH]; intros [|i] H; simpl in *;
    try reflexivity; try lia.
  f_equal. apply IH. lia.
Qed.

(** X7. [remove] drops exactly the entry at [index]: the entries before it keep
    their position and the ones after it move up by one.  An index past the
    end leaves the list as it is. *)
Theorem remove_drops_one_entry index fields :
  (forall j,
     nth_error (remove index fields) j
     = if (j <? index)%nat then nth_error fields j
       else nth_error fields (S j))
  /\ (if (index <? length fields)%nat
      then S (length (remove index fields)) = length fields
      else remove index fields = fields).
Proof.
  split; [apply nth_error_remove|].
  destruct (index <? length fields)%nat eqn:E.
  - apply Nat.ltb_lt in E. rewrite length_remove by exact E. lia.
  - apply Nat.ltb_ge in E. apply remove_past_end. exact E.
Qed.

(** X8. Removing after appending: below the old length the two commute, at the
    old length the appended entry goes and the list is as before, and past
    it nothing is removed. *)
Theorem remove_after_append index value fields :
  remove index (append value fields)
  = if (index <? length fields)%nat then append value (remove index fields)
    else if (index =? length fields)%nat then fields
    else append value fields.
Proof.
  unfold append. revert index.
  induction fields as [|first rest IH]; intros [|i]; simpl; try reflexivity.
  - destruct i; reflexivity.
  - rewrite IH. change (S i <? S (length rest))%nat with (i <? length rest)%nat.
    destruct (i <? length rest)%nat; [reflexivity|].
    destruct (i =? length rest)%nat; reflexivity.
Qed.



Lemma offered_perform_length a fields :
  offered fields a = true ->
  length (perform a fields)
  + (match a with PressMinus _ => 1 | _ => 0 end)
  = length fields + (match a with PressPlus => 1 | _ => 0 end).
Proof.
  destruct a as [|index|index value|index value]; simpl; intros H.
  - rewrite length_append. lia.
  - apply andb_true_iff in H as [_ H]. apply Nat.ltb_lt in H.
    rewrite length_remove by exact H. lia.
  - rewrite length_update. lia.
  - rewrite length_update. lia.
Qed.

(** X10. The number of entries after a session is the number before it, plus
    the presses of the plus button, minus the presses of a minus button. *)
Theorem session_counts_entries actions : forall fields fields',
  session actions fields = Some fields' ->
  length fields' + minusCount actions = length fields + plusCount actions.
Proof.
  unfold minusCount, plusCount.
  induction actions as [|a rest IH]; simpl; intros fields fields' H.
  - injection H as <-. lia.
  - destruct (offered fields a) eqn:Hoff; [|discriminate].
    specialize (IH _ _ H). pose proof (@offered_perform_length a fields Hoff).
    destruct a; simpl in *; lia.
Qed.

Lemma session_counts_entries_witness :
  session [PressPlus; PressPlus; PressMinus 1; TypeName 0 "Cafe"]
    defaultEstablishments
  = Some [mkEstablishmentData "Cafe" ""; blankEstablishment]
  /\ 2 + 1 = 1 + 2.
Proof.
  split; [reflexivity|].
  exact (@session_counts_entries
           [PressPlus; PressPlus; PressMinus 1; TypeName 0 "Cafe"]
           defaultEstablishments
           [mkEstablishmentData "Cafe" ""; blankEstablishment] eq_refl).
Defined.

Lemma renderBlocksFrom_spec fields : forall k,
  map heading_number (renderBlocksFrom k fields) = seq (S k) (length fields)
  /\ map minusButton (renderBlocksFrom (S k) fields)
     = repeat true (length fields)
  /\ length (renderBlocksFrom k fields) = length fields.
Proof.
  induction fields as [|first rest IH]; intros k; simpl; [auto|].
  destruct (IH (S k)) as (Hh & Hm & Hl).
  rewrite Hh, Hm, Hl, Nat.add_1_r. auto.
Qed.

Lemma nth_error_renderBlocksFrom fields : forall k i,
  option_map minusButton (nth_error (renderBlocksFrom k fields) i)
  = if (i <? length fields)%nat then Some (0 <? k + i)%nat else None.
Proof.
  induction fields as [|first rest IH]; intros k i; simpl.
  - destruct i; reflexivity.
  - destruct i as [|i]; simpl.
    + rewrite Nat.add_0_r. reflexivity.
    + rewrite IH. change (S i <? S (length rest))%nat
        with (i <? length rest)%nat.
      rewrite <- plus_n_Sm. reflexivity.
Qed.

(** X11. The blocks are headed "Establishment #1" to "#n"; the first has no
    minus button and every other one has; and a minus press is on offer at
    an index exactly when the block rendered there has the button. *)
Theorem blocks_and_minus_buttons fields :
  map heading_number (renderBlocks fields) = seq 1 (length fields)
  /\ map minusButton (renderBlocks fields)
     = match fields with
       | [] => []
       | _ :: rest => false :: repeat true (length rest)
       end
  /\ (forall index,
        offered fields (PressMinus index) = true
        <-> option_map minusButton (nth_error (renderBlocks fields) index)
            = Some true).
Proof.
  unfold renderBlocks. split; [apply renderBlocksFrom_spec|]. split.
  - destruct fields as [|first rest]; simpl; [reflexivity|].
    f_equal. apply renderBlocksFrom_spec.
  - intros index. rewrite nth_error_renderBlocksFrom. simpl.
    destruct (index <? length fields)%nat; rewrite ?andb_true_r, ?andb_false_r;
      split; congruence.
Qed.

(** ** Further facts about InputField *)

Lemma clickEyeTimes_toggle n props : forall st,
  showPasswordToggle props = true ->
  clickEyeTimes n props st
  = Some {| showPassword := xorb (Nat.odd n) (showPassword st);
            inputValue := inputValue st |}.
Proof.
  induction n as [|n IH]; intros [shown text] H.
  - reflexivity.
  - simpl clickEyeTimes. unfold clickEye. rewrite H, (IH _ H).
    rewrite Nat.odd_succ, <- Nat.negb_odd. simpl.
    destruct (Nat.odd n), shown; reflexivity.
Qed.

(** X12. A field with the eye shows plain text after an odd number of clicks on
    it and its configured type after an even number, and the text it holds
    is never touched.  A field without the eye has nothing to click: its
    type stays the configured one. *)
Theorem eye_clicks_by_parity n props text :
  clickEyeTimes n props (mounted text)
  = (if showPasswordToggle props
     then Some {| showPassword := Nat.odd n; inputValue := text |}
     else if (n =? 0)%nat then Some (mounted text) else None)
  /\ inputType props {| showPassword := Nat.odd n; inputValue := text |}
     = (if Nat.odd n then "text"
        else match type props with Some t => t | None => "text" end)
  /\ inputType props (mounted text)
     = match type props with Some t => t | None => "text" end.
Proof.
  split; [|split; reflexivity].
  destruct (showPasswordToggle props) eqn:H.
  - rewrite clickEyeTimes_toggle by exact H. simpl.
    rewrite xorb_false_r. reflexivity.
  - destruct n; simpl; [reflexivity|]. unfold clickEye. rewrite H.
    reflexivity.
Qed.

(** ** Further facts about the e-mail pattern *)

Lemma caseBlind_deriv c r :
  caseBlind r ->
  deriv (toUpperCase c) r = deriv c r /\ caseBlind (deriv c r).
Proof.
  induction r as [| |p|r1 IH1 r2 IH2|r1 IH1 r2 IH2|n r IH]; simpl; intros H;
    try (split; [reflexivity|exact I]).
  - rewrite H. split; [reflexivity|]. destruct (p c); exact I.
  - destruct H as [H1 H2].
    destruct (IH1 H1) as [E1 B1], (IH2 H2) as [E2 B2]. rewrite E1, E2.
    split; [reflexivity|]. destruct (nullable r1); simpl; auto.
  - destruct H as [H1 H2].
    destruct (IH1 H1) as [E1 B1], (IH2 H2) as [E2 B2]. rewrite E1, E2.
    simpl. auto.
  - destruct (IH H) as [E B]. rewrite E. split; [reflexivity|].
    destruct (nullable r); simpl; auto.
Qed.

Lemma test_chars_upper s : forall r,
  caseBlind r -> test_chars r (map toUpperCase s) = test_chars r s.
Proof.
  induction s as [|c s IH]; intros r H; simpl; [reflexivity|].
  destruct (@caseBlind_deriv c r H) as [-> B]. apply IH. exact B.
Qed.

Lemma emailPattern_caseBlind : caseBlind emailPattern.
Proof.
  simpl. repeat split; intros c;
    destruct c as [[] [] [] [] [] [] [] []]; reflexivity.
Qed.

(** X13. The [i] flag: two addresses that differ only in the case of their
    letters get the same verdict. *)
Theorem email_case_is_ignored (a b : string) :
  map toUpperCase (list_ascii_of_string a)
  = map toUpperCase (list_ascii_of_string b) ->
  test emailPattern a = test emailPattern b
  /\ validateEmail a = validateEmail b.
Proof.
  intros H.
  assert (Ht : test emailPattern a = test emailPattern b).
  { unfold test.
    rewrite <- (@test_chars_upper (list_ascii_of_string a) emailPattern
                  emailPattern_caseBlind),
            <- (@test_chars_upper (list_ascii_of_string b) emailPattern
                  emailPattern_caseBlind), H.
    reflexivity. }
  split; [exact Ht|].
  assert (He : (a =? "") = (b =? "")).
  { destruct a as [|ca a'], b as [|cb b']; simpl in *; try reflexivity;
      discriminate H. }
  unfold validateEmail, validateField, requiredError, patternError.
  simpl. rewrite Ht, He. reflexivity.
Qed.

Lemma email_case_is_ignored_witness :
  test emailPattern "Ana.Cruz@Example.COM" = true
  /\ test emailPattern "ana.cruz@example.com" = true.
Proof.
  split; [reflexivity|].
  rewrite <- (proj1 (@email_case_is_ignored "Ana.Cruz@Example.COM"
                       "ana.cruz@example.com" eq_refl)).
  reflexivity.
Defined.

Lemma length_chars (value : string) :
  length (list_ascii_of_string value) = String.length value.
Proof. induction value; simpl; congruence. Qed.

Lemma count_occ_none (p : ascii -> bool) x s :
  forallb p s = true -> p x = false -> count_occ ascii_dec s x = 0.
Proof.
  intros Hall Hx. induction s as [|c s IH]; simpl in *; [reflexivity|].
  apply andb_true_iff in Hall as [Hc Hs].
  destruct (ascii_dec c x) as [->|_]; [congruence|]. auto.
Qed.

Lemma forallb_weaken (p q : ascii -> bool) s :
  (forall c, p c = true -> q c = true) ->
  forallb p s = true -> forallb q s = true.
Proof.
  intros Hpq. induction s as [|c s IH]; simpl; [reflexivity|].
  intros H. apply andb_true_iff in H as [Hc Hs].
  rewrite (Hpq c Hc), IH by exact Hs. reflexivity.
Qed.

Lemma domainChar_is_localChar c : isDomainChar c = true -> isLocalChar c = true.
Proof.
  destruct c as [[] [] [] [] [] [] [] []]; simpl; intros H;
    first [reflexivity | discriminate H].
Qed.

Lemma letter_is_domainChar c : isLetter c = true -> isDomainChar c = true.
Proof.
  destruct c as [[] [] [] [] [] [] [] []]; simpl; intros H;
    first [reflexivity | discriminate H].
Qed.

Lemma validateEmail_passes value :
  validateEmail value = None -> EmailShape (list_ascii_of_string value).
Proof.
  unfold validateEmail, validateField, requiredError, patternError. simpl.
  destruct (value =? ""); [discriminate|]. simpl.
  destruct (test emailPattern value) eqn:E; [|discriminate].
  intros _. apply test_emailPattern. exact E.
Qed.

(** X14. An address that passes has exactly one at sign, at least six
    characters, and no character other than letters, digits, the at sign
    and [._%+-] (so no blank); the part after the last dot is two or more
    letters. *)
Theorem accepted_email_is_plain value :
  validateEmail value = None ->
  let s := list_ascii_of_string value in
  count_occ ascii_dec s "@"%char = 1
  /\ 6 <= String.length value
  /\ forallb (fun c => isLocalChar c || Ascii.eqb c "@") s = true
  /\ exists front tld,
       s = front ++ "."%char :: tld
       /\ 2 <= length tld /\ forallb isLetter tld = true.
Proof.
  intros H s. subst s. apply validateEmail_passes in H.
  destruct H as (l & d & t & E & Hl & Hlc & Hd & Hdc & Ht & Htc).
  rewrite <- length_chars, E.
  assert (Htd : forallb isDomainChar t = true)
    by (exact (@forallb_weaken _ _ t letter_is_domainChar Htc)).
  assert (Hdl : forallb isLocalChar (d ++ "."%char :: t) = true).
  { apply (@forallb_weaken _ _ _ domainChar_is_localChar).
    rewrite forallb_app. simpl. rewrite Hdc, Htd. reflexivity. }
  split; [|split; [|split]].
  - rewrite count_occ_app. simpl.
    rewrite (@count_occ_none isLocalChar "@"%char l Hlc eq_refl),
      (@count_occ_none isLocalChar "@"%char _ Hdl eq_refl).
    reflexivity.
  - rewrite length_app. simpl. rewrite length_app. simpl.
    destruct l; [contradiction|]. destruct d; [contradiction|]. simpl. lia.
  - rewrite forallb_app. simpl.
    assert (Hor : forall c, isLocalChar c = true ->
                            isLocalChar c || Ascii.eqb c "@" = true)
      by (intros c Hc; rewrite Hc; reflexivity).
    rewrite (@forallb_weaken _ _ l Hor Hlc),
      (@forallb_weaken _ _ _ Hor Hdl).
    reflexivity.
  - exists (l ++ "@"%char :: d), t. rewrite <- app_assoc. auto.
Qed.

Lemma accepted_email_is_plain_witness :
  validateEmail "a@b.co" = None /\ 6 <= String.length "a@b.co".
Proof.
  split; [reflexivity|].
  exact (proj1 (proj2 (@accepted_email_is_plain "a@b.co" eq_refl))).
Defined.

(** ** The rules of the other fields and [handleSubmit] *)

Lemma eqb_empty_length (value : string) :
  (value =? "") = (String.length value =? 0)%nat.
Proof. destruct value; reflexivity. Qed.

Lemma checkField_password value :
  checkField passwordRules value
  = if (String.length value =? 0)%nat
    then Some (mkViolation KindRequired "Password is required")
    else if (String.length value <? 8)%nat
         then Some (mkViolation KindMinLength
                      "Password must have at least 8 characters")
         else None.
Proof.
  unfold checkField, checkRequired, checkMinLength, checkPattern,
    checkValidate. simpl. rewrite eqb_empty_length.
  destruct (String.length value =? 0)%nat; [reflexivity|]. simpl.
  destruct (String.length value <? 8)%nat; reflexivity.
Qed.

Lemma password_rule_passes value :
  checkField passwordRules value = None <-> 8 <= String.length value.
Proof.
  rewrite checkField_password.
  destruct (String.length value =? 0)%nat eqn:E0.
  - apply Nat.eqb_eq in E0. split; [discriminate|lia].
  - destruct (String.length value <? 8)%nat eqn:E8.
    + apply Nat.ltb_lt in E8. split; [discriminate|lia].
    + apply Nat.ltb_ge in E8. split; [intros _; exact E8|reflexivity].
Qed.

Lemma checkField_confirmPassword password value :
  checkField (confirmPasswordRules password) value
  = if value =? ""
    then Some (mkViolation KindRequired "Please confirm your password")
    else if value =? password then None
         else Some (mkViolation KindValidate "Passwords do not match").
Proof.
  unfold checkField, checkRequired, checkMinLength, checkPattern,
    checkValidate. simpl.
  destruct (value =? ""); [reflexivity|]. simpl.
  destruct (value =? password); reflexivity.
Qed.

Lemma confirmPassword_rule_passes password value :
  checkField (confirmPasswordRules password) value = None
  <-> value <> "" /\ value = password.
Proof.
  rewrite checkField_confirmPassword.
  destruct (value =? "") eqn:E0.
  - apply String.eqb_eq in E0. split; [discriminate|]. intros [H _].
    contradiction.
  - apply String.eqb_neq in E0. destruct (value =? password) eqn:E1.
    + apply String.eqb_eq in E1. tauto.
    + apply String.eqb_neq in E1. split; [discriminate|]. intros [_ H].
      contradiction.
Qed.


(** X16. The confirmation field reports "required" when it is empty, even if
    the password is empty too, "do not match" when it is filled in and
    differs from the password, and nothing when it is filled in and equal
    to it. *)
Theorem confirm_password_rule password value :
  checkField (confirmPasswordRules password) value
  = (if value =? ""
     then Some (mkViolation KindRequired "Please confirm your password")
     else if value =? password then None
          else Some (mkViolation KindValidate "Passwords do not match"))
  /\ (checkField (confirmPasswordRules password) value = None
      <-> value <> "" /\ value = password).
Proof.
  split; [apply checkField_confirmPassword
         | apply confirmPassword_rule_passes].
Qed.

Lemma required_rule_passes message value :
  isNone (checkField (requiredRule message) value) = true <-> value <> "".
Proof.
  unfold checkField, checkRequired, checkMinLength, checkPattern,
    checkValidate. simpl.
  destruct (value =? "") eqn:E; simpl.
  - apply String.eqb_eq in E. split; [discriminate|]. intros H.
    contradiction.
  - apply String.eqb_neq in E. tauto.
Qed.

Lemma email_rule_passes value :
  isNone (checkField emailFieldRules value) = true
  <-> EmailShape (list_ascii_of_string value).
Proof.
  pose proof (test_emailPattern value) as Ht.
  unfold checkField, checkRequired, checkMinLength, checkPattern,
    checkValidate. simpl.
  destruct (value =? "") eqn:E; simpl.
  - apply String.eqb_eq in E. subst value. split; [discriminate|].
    intros (l & d & t & H & _). destruct l; discriminate H.
  - destruct (test emailPattern value); simpl.
    + split; [intros _; apply Ht|]; reflexivity.
    + split; [discriminate|]. intros H. apply Ht in H. discriminate H.
Qed.

Lemma isNone_iff {A : Type} (o : option A) : isNone o = true <-> o = None.
Proof. destruct o; simpl; split; congruence. Qed.

Lemma establishments_pass ests :
  forallb (fun ee => isNone (name_error ee) && isNone (dtiCertNo_error ee))
    (map checkEstablishment ests) = true
  <-> Forall (fun e => name e <> "" /\ dtiCertNo e <> "") ests.
Proof.
  induction ests as [|e rest IH]; simpl.
  - split; [constructor|reflexivity].
  - rewrite !andb_true_iff, IH.
    unfold establishmentNameRules, dtiCertNoRules.
    rewrite !required_rule_passes. split.
    + intros [[Hn Hc] Hrest]. constructor; auto.
    + intros H. inversion H; subst. tauto.
Qed.

(** A form the user may submit. *)
Local Abbreviation Filled data :=
  (firstName data <> ""
   /\ lastName data <> ""
   /\ EmailShape (list_ascii_of_string (email data))
   /\ 8 <= String.length (password data)
   /\ confirmPassword data = password data
   /\ Forall (fun e => name e <> "" /\ dtiCertNo e <> "")
        (establishments data)).

Lemma noErrors_iff_filled data :
  noErrors (validateForm data) = true <-> Filled data.
Proof.
  unfold noErrors, validateForm. simpl.
  rewrite !andb_true_iff.
  unfold firstNameRules, lastNameRules.
  rewrite !required_rule_passes, email_rule_passes, establishments_pass.
  rewrite !isNone_iff.
  rewrite password_rule_passes, confirmPassword_rule_passes.
  split.
  - intros [[[[[H1 H2] H3] H4] [_ H5]] H6]. auto 10.
  - intros (H1 & H2 & H3 & H4 & H5 & H6).
    assert (H7 : confirmPassword data <> "").
    { intros E. rewrite E in H5. rewrite <- H5 in H4. simpl in H4. lia. }
    auto 10.
Qed.


Section SubmitFacts.
Variable Remote : Type.
Variable signUp : SignUpRequest -> Remote -> Settled AuthResponse * Remote.
Variable insert :
  string -> EstablishmentRow -> Remote -> Settled InsertResponse * Remote.

Local Abbreviation submit := (submit signUp insert).
Local Abbreviation pressSubmit := (pressSubmit signUp insert).
Local Abbreviation attempted := (attempted insert).
Local Abbreviation insertAll := (insertAll insert).

(** The requests of a run: one sign-up with the form's data, and insertions
    for a prefix of the entries, if the sign-up gave a user. *)
Lemma requests_of_run data previousError r :
  let w := snd (submit data previousError r) in
  signUpsOf (effects w) = [signUpRequest data]
  /\ match signUp (signUpRequest data) r with
     | (Resolved {| auth_user := Some user; auth_error := None |}, r1) =>
         insertsOf (effects w)
         = map (establishmentRow user)
             (firstn (attempted user (establishments data) r1)
                (establishments data))
     | _ => insertsOf (effects w) = []
     end.
Proof.
  intros w. subst w.
  pose proof (submit_spec signUp insert data previousError r) as Hspec.
  destruct (signUp (signUpRequest data) r) as [[[[user|] [e|]]|t] r1];
    cbn [signUpFailure option_map auth_error auth_user] in Hspec;
    unfold thrown_of in Hspec.
  - rewrite Hspec. split; reflexivity.
  - destruct (insertAll user (establishments data) r1) eqn:Hall.
    + rewrite Hspec. cbn [snd effects].
      rewrite !signUpsOf_app, !insertsOf_app, signUpsOf_requests,
        insertsOf_requests, (attempted_all _ _ _ _ Hall), firstn_all.
      simpl. rewrite app_nil_r. split; reflexivity.
    + destruct Hspec as (t & r' & Hspec).
      destruct t; rewrite Hspec; cbn [snd effects];
        rewrite !signUpsOf_app, !insertsOf_app, signUpsOf_requests,
          insertsOf_requests; simpl; rewrite app_nil_r; split; reflexivity.
  - rewrite Hspec. split; reflexivity.
  - rewrite Hspec. split; reflexivity.
  - destruct t; rewrite Hspec; split; reflexivity.
Qed.



Lemma pressSubmit_effects data previousError r :
  effects (snd (pressSubmit data previousError r)) <> [] ->
  Filled data
  /\ pressSubmit data previousError r = submit data previousError r.
Proof.
  unfold pressSubmit, handleSubmit.
  destruct (noErrors (validateForm data)) eqn:E.
  - intros _. split; [apply noErrors_iff_filled; exact E|reflexivity].
  - intros H. contradiction H. reflexivity.
Qed.

Lemma in_firstn_in {A : Type} (x : A) n l : In x (firstn n l) -> In x l.
Proof.
  intros H. rewrite <- (firstn_skipn n l). apply in_or_app. left. exact H.
Qed.



(** X20. Whatever row is sent for insertion comes from an entry of the form,
    has a name and a certificate number, the status "unregistered", and as
    owner the user the sign-up returned. *)
Theorem sent_rows_are_checked data previousError r row :
  In row (insertsOf (effects (snd (pressSubmit data previousError r)))) ->
  row_name row <> "" /\ dti_cert_no row <> ""
  /\ status row = "unregistered"
  /\ exists user r1 e,
       signUp (signUpRequest data) r
       = (Resolved {| auth_user := Some user; auth_error := None |}, r1)
       /\ In e (establishments data)
       /\ row = establishmentRow user e.
Proof.
  intros Hin.
  assert (Hne : effects (snd (pressSubmit data previousError r)) <> []).
  { intros E. rewrite E in Hin. exact Hin. }
  destruct (@pressSubmit_effects data previousError r Hne)
    as [(_ & _ & _ & _ & _ & Hests) Hrun].
  rewrite Hrun in Hin.
  pose proof (proj2 (requests_of_run data previousError r)) as Hrows.
  cbv zeta in Hrows.
  destruct (signUp (signUpRequest data) r) as [[[[user|] [e|]]|t] r1];
    try (rewrite Hrows in Hin; contradiction).
  rewrite Hrows in Hin. apply in_map_iff in Hin as (e & <- & He).
  apply in_firstn_in in He.
  pose proof (proj1 (Forall_forall _ _) Hests e He) as [Hn Hc].
  simpl. repeat split; try assumption.
  exists user, r1, e. auto.
Qed.

(** X21. With the entries of a session of the form, a created account is always
    followed by at least one insertion request, and the first request is
    for the first entry. *)
Theorem first_entry_is_sent data previousError r actions user r1 :
  session actions defaultEstablishments = Some (establishments data) ->
  signUp (signUpRequest data) r
  = (Resolved {| auth_user := Some user; auth_error := None |}, r1) ->
  exists e rest,
    establishments data = e :: rest
    /\ hd_error (insertsOf (effects (snd (submit data previousError r))))
       = Some (establishmentRow user e).
Proof.
  intros Hsession Hsign.
  pose proof (@session_nonempty actions defaultEstablishments _
                (le_n 1) Hsession) as Hlen.
  pose proof (proj2 (requests_of_run data previousError r)) as Hrows.
  cbv zeta in Hrows. rewrite Hsign in Hrows. rewrite Hrows.
  destruct (establishments data) as [|e rest]; simpl in Hlen; [lia|].
  exists e, rest. split; [reflexivity|]. simpl.
  destruct (insert _ _ r1) as [reply r2].
  destruct (insertFailure reply); reflexivity.
Qed.
End SubmitFacts.

(** *** Presses of the submit button against the scripted service *)



Lemma sent_rows_are_checked_witness :
  let data := Stub.form None [Stub.bakery] in
  let row := establishmentRow (mkUser "u-1") Stub.bakery in
  In row (insertsOf (effects (snd (pressSubmit Stub.signUp Stub.insert data
                                     "" Stub.allAccepted))))
  /\ row_name row <> "".
Proof.
  intros data row.
  assert (Hin : In row
                  (insertsOf
                     (effects (snd (pressSubmit Stub.signUp Stub.insert data
                                      "" Stub.allAccepted)))))
    by (cbv; left; reflexivity).
  split; [exact Hin|].
  exact (proj1 (@sent_rows_are_checked _ Stub.signUp Stub.insert data ""
                  Stub.allAccepted _ Hin)).
Defined.

Lemma first_entry_is_sent_witness :
  let data := Stub.form None [Stub.bakery; Stub.cafe] in
  let actions :=
    [TypeName 0 "Bakery"; TypeCertNo 0 "DTI-1"; PressPlus;
     TypeName 1 "Cafe"; TypeCertNo 1 "DTI-2"] in
  session actions defaultEstablishments = Some (establishments data)
  /\ exists e rest,
       establishments data = e :: rest
       /\ hd_error
            (insertsOf
               (effects (snd (submit Stub.signUp Stub.insert data ""
                                Stub.firstInsertRefused))))
          = Some (establishmentRow (mkUser "u-1") e).
Proof.
  intros data actions. split; [reflexivity|].
  exact (@first_entry_is_sent _ Stub.signUp Stub.insert data ""
           Stub.firstInsertRefused actions (mkUser "u-1")
           Stub.firstInsertRefused eq_refl eq_refl).
Defined.

Lemma logged_error_is_reported_witness :
  let w :=
    snd (Stub.submit (Stub.form None [Stub.bakery]) Stub.signUpRefused) in
  consoleErrorsOf (effects w)
    = [ThrownValue (Some "User already registered")]
  /\ toastsOf (effects w)
     = [failureToast (Some "User already registered")]
  /\ errorMessage w = "User already registered".
Proof.
  intros w.
  assert (H : consoleErrorsOf (effects w)
              = [ThrownValue (Some "User already registered")])
    by reflexivity.
  split; [exact H|].
  destruct (@logged_error_is_reported _ Stub.signUp Stub.insert
              (Stub.form None [Stub.bakery]) "" Stub.signUpRefused _ H)
    as (Htoast & Hmsg & _).
  exact (conj Htoast Hmsg).
Defined.
